(** * LIBERREX, en_tn: the resumable translation scraper

    A shallow embedding of [src/en_tn/scraper.py] and
    [src/en_tn/retry_failed.py], and the properties of the retry policy,
    the progress store, the pipeline driver and the failure re-processor.

    Conventions of the embedding.
    - A Python [str] is the list of its code points ([list N]).
    - A text file read line by line is the list of the lines that the
      iteration yields (each with its line end still attached).
    - A CSV file is the list of its records as [csv] hands them to the
      program ([Row fields]); a stretch of the file that cannot be decoded
      or parsed is [Garbled], and reading it raises. A row that a program
      writes is read back as it was written when none of its fields is
      longer than the field size limit of the reader or holds a carriage
      return ([reads_back]); the results that read a sink after a program
      wrote to it assume so.
    - The endpoint, the interrupt signal, the clock and the console are the
      outside world: the endpoint answers the n-th request by a function of
      n and of the text sent; [KeyboardInterrupt] is delivered at an effect
      chosen by the world, among the requests, the sleeps, the writing of a
      row and the writing of the checkpoint marker; time passes by [Sleep]
      events; console lines and diagnostic-log lines are events of the run
      (the time stamp of a log line is left out).
    - An interrupt that arrives elsewhere (before the loop of a program,
      in its [finally] clause, between the opening of a file and its first
      write, after a line of the diagnostic log) has no point of delivery
      here, and the counters of a loop count the rounds that ended, where
      the code counts a sentence once its row is flushed. Where a result
      depends on it, the run is taken not to be interrupted, unless the
      result names the points of delivery above.
    - A row of the failure sink that is too short for a column of its
      header is outside the model too ([getitem]): the results about the
      re-processor are stated for failure sinks whose rows have a field
      for each column.
    - Failures of the file system other than an input file that is missing
      and a sink that cannot be read are outside the model. *)

From Stdlib Require Import String Ascii QArith.
From stdpp Require Import base tactics option list numbers gmap.

Set Default Proof Using "Type".
Local Open Scope list_scope.
Local Open Scope nat_scope.

(** ** Python strings *)

Module Py.

Abbreviation str := (list N).

(** A literal of the source, written in ASCII. *)
Definition lit (s : string) : str :=
  List.map N_of_ascii (list_ascii_of_string s).

Arguments lit : simpl never.

Definition TAB : N := 9%N.
Definition NL : N := 10%N.
Definition CR : N := 13%N.
Definition SPACE : N := 32%N.

(** [str.isspace] on one code point: the white space of [str.strip()] and
    [str.split()] without arguments. *)
Definition isspace (c : N) : bool :=
  ((9 <=? c) && (c <=? 13) || (28 <=? c) && (c <=? 32)
   || (c =? 133) || (c =? 160) || (c =? 5760)
   || (8192 <=? c) && (c <=? 8202)
   || (c =? 8232) || (c =? 8233) || (c =? 8239) || (c =? 8287)
   || (c =? 12288))%N.

Fixpoint lstrip (s : str) : str :=
  match s with
  | [] => []
  | c :: r => if isspace c then lstrip r else s
  end.

Definition rstrip (s : str) : str := rev (lstrip (rev s)).

(** [s.strip()] *)
Definition strip (s : str) : str := rstrip (lstrip s).

(** [s.split(sep)] for a separator of one code point: never empty, keeps
    empty fields. *)
Fixpoint split (sep : N) (s : str) : list str :=
  match s with
  | [] => [[]]
  | c :: r =>
      if (c =? sep)%N then [] :: split sep r
      else match split sep r with
           | p :: ps => (c :: p) :: ps
           | [] => [[c]]
           end
  end.

(** [s.split()]: the maximal runs without white space. [cur] is the run
    being read, in reverse. *)
Fixpoint split_ws_from (cur : str) (s : str) : list str :=
  match s with
  | [] => match cur with [] => [] | _ => [rev cur] end
  | c :: r =>
      if isspace c
      then match cur with
           | [] => split_ws_from [] r
           | _ => rev cur :: split_ws_from [] r
           end
      else split_ws_from (c :: cur) r
  end.

Definition split_ws (s : str) : list str := split_ws_from [] s.

(** [" ".join(l)] *)
Fixpoint join_space (l : list str) : str :=
  match l with
  | [] => []
  | [x] => x
  | x :: r => x ++ SPACE :: join_space r
  end.

(** [s[:n]] *)
Definition upto (n : nat) (s : str) : str := take n s.

Arguments upto : simpl never.

(** Truth value of a string: non-empty. *)
Definition truthy (s : str) : bool :=
  match s with [] => false | _ => true end.

(** What [f.read()] gives for the text [s] of a file opened in text mode
    with the default [newline=None]: each [\r\n] and each other [\r] comes
    back as [\n]. *)
Fixpoint universal_newlines (s : str) : str :=
  match s with
  | [] => []
  | c :: r =>
      if (c =? CR)%N then
        NL :: match r with
              | d :: r' =>
                  if (d =? NL)%N then universal_newlines r'
                  else universal_newlines r
              | [] => []
              end
      else c :: universal_newlines r
  end.

End Py.

(** ** The regular expressions of [extract_fs3_paragraph] *)

Module Re.

Import Py.

(** One literal character of a pattern compiled with [re.IGNORECASE]: the
    character itself, its other case, and for [s] the long s (U+017F) that
    [re] treats as equivalent. *)
Definition lower (c : N) : N :=
  if ((65 <=? c) && (c <=? 90))%N then (c + 32)%N
  else if (c =? 383)%N then 115%N else c.

Definition ieq (pat c : N) : bool := (lower c =? lower pat)%N.

(** The literal [pat] matches at the head of [s], ignoring case; the rest of
    [s] after it. *)
Fixpoint imatch (pat s : str) : option str :=
  match pat with
  | [] => Some s
  | p :: pat' =>
      match s with
      | c :: s' => if ieq p c then imatch pat' s' else None
      | [] => None
      end
  end.

Definition GT : N := 62%N.
Definition LT : N := 60%N.

(** The run [[^>]*] read at its longest, and what follows it. *)
Fixpoint span_tag (s : str) : str * str :=
  match s with
  | [] => ([], [])
  | c :: r =>
      if (c =? GT)%N then ([], s)
      else let '(a, b) := span_tag r in (c :: a, b)
  end.

(** Some occurrence of the literal in [s], ignoring case. *)
Fixpoint icontains (pat s : str) : bool :=
  match imatch pat s with
  | Some _ => true
  | None => match s with [] => false | _ :: r => icontains pat r end
  end.

(** [(.*?)lit] with [re.DOTALL]: the shortest prefix of [s] that the literal
    follows. *)
Fixpoint until_lit (pat s : str) : option str :=
  match imatch pat s with
  | Some _ => Some []
  | None =>
      match s with
      | [] => None
      | c :: r => option_map (cons c) (until_lit pat r)
      end
  end.

Definition QUOTE : N := 34%N.

(** The literal [class="fs-3"]. *)
Definition CLASS_FS3 : str := lit "class=" ++ QUOTE :: lit "fs-3" ++ [QUOTE].

(** The pattern [<p[^>]*class="fs-3"[^>]*>(.*?)</p>] tried at the head of
    [s]. Both [[^>]*] stay inside the run of characters other than [>] that
    follows [<p]; the [>] that closes the tag is the first one, whichever
    occurrence of the attribute the first [[^>]*] stops at, and the group
    is what lies between it and the first [</p>]. *)
Definition match_here (s : str) : option str :=
  match imatch (lit "<p") s with
  | None => None
  | Some r =>
      let '(attrs, rest) := span_tag r in
      if icontains CLASS_FS3 attrs then
        match rest with
        | _gt :: body => until_lit (lit "</p>") body
        | [] => None
        end
      else None
  end.

(** [re.search(pattern, html, re.DOTALL | re.IGNORECASE)], group 1 of the
    leftmost match. *)
Fixpoint search_fs3 (html : str) : option str :=
  match match_here html with
  | Some g => Some g
  | None => match html with [] => None | _ :: r => search_fs3 r end
  end.

(** Index of the [>] that ends [<.*?>] when the [<] has just been read:
    the first [>], provided no newline comes before it ([.] does not match
    a newline here). *)
Fixpoint close_index (s : str) : option nat :=
  match s with
  | [] => None
  | c :: r =>
      if (c =? GT)%N then Some 0
      else if (c =? NL)%N then None
      else option_map S (close_index r)
  end.

(** [re.sub(r"<.*?>", "", s)]. [skip] characters of a match found earlier
    are still to be dropped. *)
Fixpoint sub_tags_from (skip : nat) (s : str) : str :=
  match s with
  | [] => []
  | c :: r =>
      match skip with
      | S k => sub_tags_from k r
      | O =>
          if (c =? LT)%N then
            match close_index r with
            | Some j => sub_tags_from (S j) r
            | None => c :: sub_tags_from 0 r
            end
          else c :: sub_tags_from 0 r
      end
  end.

Definition sub_tags (s : str) : str := sub_tags_from 0 s.

End Re.

(** ** The outside world and the monad of effects *)

Module World.

Import Py.

(** What the endpoint does with one request: a document, or any failure of
    the transport ([requests.RequestException]: connection error, timeout,
    status that [raise_for_status] refuses). *)
Inductive response :=
  | Html (body : str)
  | NetworkError (cause : str).

Inductive exn :=
  | KeyboardInterrupt
  | RequestException (cause : str)
  | FileNotFoundError
  | CsvError
  | KeyError
  | TypeError.

(** The status strings of [translate_with_retry]. *)
Inductive status := success | no_translation | error.

Definition status_str (s : status) : str :=
  match s with
  | success => lit "success"
  | no_translation => lit "no_translation"
  | error => lit "error"
  end.

Arguments status_str : simpl never.

#[global] Instance status_eq_dec : EqDecision status.
Proof. solve_decision. Defined.

(** Console lines, one constructor for each [print] of the two programs. *)
Inductive message :=
  | MsgNoTranslation (sentence_id text50 : str)
  | MsgAttemptError (sentence_id : str) (attempt : nat) (cause : str)
  | MsgGaveUp (sentence_id cause : str)
  | MsgCouldNotRead
  | MsgBackedUp
  | MsgStarting
  | MsgReading
  | MsgFound (n : nat)
  | MsgAlready (n : nat)
  | MsgRemaining (n : nat)
  | MsgAllDone
  | MsgScraping
  | MsgInterrupted
  | MsgSummary (success_count fail_count : nat)
  | MsgLastProcessed (last_id : str)
  | MsgNoFailedFile
  | MsgFoundFailed (n : nat)
  | MsgNothingToRetry
  | MsgRetrying (sentence_id : str)
  | MsgNowOk
  | MsgStillFailed (s : status)
  | MsgRetrySummary (success_count still_failed : nat).

(** Lines of the diagnostic log. *)
Inductive debug_line :=
  | DbgNoParagraph (sentence_id : str) (html_length : nat)
  | DbgRequestFailed (sentence_id cause : str).

Inductive event :=
  | Call (text : str)
  | Sleep (seconds : Q)
  | Print (m : message)
  | Debug (d : debug_line).

(** The endpoint and the operator. [remote n text] is the answer to the
    request number [n] when it carries [text]; [sigint = Some k] delivers
    [KeyboardInterrupt] at the effect number [k] from now. *)
Record Net := mkNet {
  remote : nat -> str -> response;
  ncalls : nat;
  sigint : option nat;
}.

Inductive record :=
  | Row (fields : list str)
  | Garbled.

Definition csvfile := list record.

(** The files next to the programs; [None] is a file that does not
    exist. *)
Record Files := mkFiles {
  INPUT_TSV : option (list str);
  OUTPUT_CSV : option csvfile;
  OUTPUT_CSV_BACKUP : option csvfile;
  FAILED_CSV : option csvfile;
  RETRY_OUTPUT : option csvfile;
  CHECKPOINT_FILE : option str;
}.

Record World := mkWorld {
  files : Files;
  net : Net;
}.

Definition set_OUTPUT_CSV (v : option csvfile) (f : Files) : Files :=
  mkFiles (INPUT_TSV f) v (OUTPUT_CSV_BACKUP f) (FAILED_CSV f)
          (RETRY_OUTPUT f) (CHECKPOINT_FILE f).
Definition set_OUTPUT_CSV_BACKUP (v : option csvfile) (f : Files) : Files :=
  mkFiles (INPUT_TSV f) (OUTPUT_CSV f) v (FAILED_CSV f)
          (RETRY_OUTPUT f) (CHECKPOINT_FILE f).
Definition set_FAILED_CSV (v : option csvfile) (f : Files) : Files :=
  mkFiles (INPUT_TSV f) (OUTPUT_CSV f) (OUTPUT_CSV_BACKUP f) v
          (RETRY_OUTPUT f) (CHECKPOINT_FILE f).
Definition set_RETRY_OUTPUT (v : option csvfile) (f : Files) : Files :=
  mkFiles (INPUT_TSV f) (OUTPUT_CSV f) (OUTPUT_CSV_BACKUP f) (FAILED_CSV f)
          v (CHECKPOINT_FILE f).
Definition set_CHECKPOINT_FILE (v : option str) (f : Files) : Files :=
  mkFiles (INPUT_TSV f) (OUTPUT_CSV f) (OUTPUT_CSV_BACKUP f) (FAILED_CSV f)
          (RETRY_OUTPUT f) v.

(** *** State, exceptions and the events of the run *)

Inductive res (A : Type) :=
  | Ok (a : A)
  | Raise (e : exn).
Arguments Ok {A} a.
Arguments Raise {A} e.

Definition M (S A : Type) : Type := S -> res A * S * list event.

Definition ret {S A} (a : A) : M S A := fun s => (Ok a, s, []).

Definition bind {S A B} (m : M S A) (f : A -> M S B) : M S B :=
  fun s =>
    match m s with
    | (Ok a, s1, o1) => let '(r, s2, o2) := f a s1 in (r, s2, o1 ++ o2)
    | (Raise e, s1, o1) => (Raise e, s1, o1)
    end.

Definition raise {S A} (e : exn) : M S A := fun s => (Raise e, s, []).

Definition emit {S} (e : event) : M S unit := fun s => (Ok tt, s, [e]).

Definition gets {S A} (f : S -> A) : M S A := fun s => (Ok (f s), s, []).

Definition modify {S} (f : S -> S) : M S unit := fun s => (Ok tt, f s, []).

(** The outcome of [m] as a value: nothing is raised. *)
Definition attempt {S A} (m : M S A) : M S (res A) :=
  fun s => let '(r, s1, o1) := m s in (Ok r, s1, o1).

Notation "'let*' x ':=' m 'in' k" := (bind m (fun x => k))
  (at level 10, x pattern, m at level 100, k at level 200).
Notation "m >> k" := (bind m (fun _ => k))
  (at level 100, k at level 200, right associativity).

(** [try: body except <the exceptions h answers>: h e]. The handler runs
    outside the [try]: what it raises is not caught here. *)
Definition try_except {S A} (body : M S A) (h : exn -> option (M S A)) : M S A :=
  let* r := attempt body in
  match r with
  | Ok a => ret a
  | Raise e => match h e with Some k => k | None => raise e end
  end.

(** An effect of the net run by a program that also holds the files. *)
Definition lift {A} (m : M Net A) : M World A :=
  fun w => let '(r, n, o) := m (net w) in (r, mkWorld (files w) n, o).

Definition get_file {A} (f : Files -> A) : M World A :=
  gets (fun w => f (files w)).

Definition set_file (f : Files -> Files) : M World unit :=
  modify (fun w => mkWorld (f (files w)) (net w)).

(** A point where a pending [KeyboardInterrupt] is delivered. *)
Definition tick : M Net unit :=
  fun n =>
    match sigint n with
    | None => (Ok tt, n, [])
    | Some (S k) => (Ok tt, mkNet (remote n) (ncalls n) (Some k), [])
    | Some O => (Raise KeyboardInterrupt, mkNet (remote n) (ncalls n) None, [])
    end.

Definition print {S} (m : message) : M S unit := emit (Print m).

(** [time.sleep(seconds)] *)
Definition sleep (seconds : Q) : M Net unit :=
  tick >> emit (Sleep seconds).

(** *** [csv.DictReader] and [csv.DictWriter] *)

(** The records the reader hands over before it stops, and whether it
    stopped by raising. *)
Fixpoint reader_rows (f : csvfile) : list (list str) * bool :=
  match f with
  | [] => ([], false)
  | Garbled :: _ => ([], true)
  | Row r :: rest => let '(rs, raised) := reader_rows rest in (r :: rs, raised)
  end.

(** One row as a dict: [dict(zip(fieldnames, row))], a later column of the
    same name winning, then [None] for the columns the row is too short
    for. (The entry under the key [None] for a row that is too long is
    not a string key and is left out.) *)
Definition row_dict (fieldnames row : list str) : gmap str (option str) :=
  foldl (fun d key => <[key := None]> d)
        (list_to_map (reverse (zip fieldnames (Some <$> row))))
        (drop (length row) fieldnames).

(** [for row in csv.DictReader(f)]: the first record gives the field
    names, empty records are passed over. *)
Definition DictReader (f : csvfile) : list (gmap str (option str)) * bool :=
  match f with
  | [] => ([], false)
  | Garbled :: _ => ([], true)
  | Row fieldnames :: rest =>
      let '(rows, raised) := reader_rows rest in
      (row_dict fieldnames <$> filter (fun r => r ≠ []) rows, raised)
  end.

(** [open(path, 'a')] creates the file when it is missing. *)
Definition open_append (f : option csvfile) : option csvfile :=
  match f with
  | None => Some []
  | Some c => Some c
  end.

(** [writer.writerow] on a file opened for appending or writing. The file
    objects of the programs are flushed after each row and closed on every
    way out, so that a row is in the file as soon as it is written. The
    writer takes any row. In the code the reader hands a row back as it
    was written only when it can read it ([Obs.reads_back]): a result
    that reads a sink after a program wrote to it assumes so. *)
Definition write_row (row : list str) (f : option csvfile) : option csvfile :=
  match f with
  | None => Some [Row row]
  | Some c => Some (c ++ [Row row])
  end.

End World.

(** ** [scraper.py] *)

Module Scraper.

Import Py World.

Definition REQUEST_DELAY : Q := 5.
Definition MAX_RETRIES : nat := 3.
Definition RETRY_DELAY : Q := 5.

(** [call_klemy]: one request; [requests.post] and [raise_for_status]
    raise a [RequestException] when the transport fails. *)
Definition call_klemy (text : str) : M Net str :=
  tick >>
  let* n := gets ncalls in
  let* answer := gets (fun w => remote w n text) in
  modify (fun w => mkNet (remote w) (S n) (sigint w)) >>
  emit (Call text) >>
  match answer with
  | Html body => ret body
  | NetworkError cause => raise (RequestException cause)
  end.

(** [extract_fs3_paragraph]; [x or None] turns the empty string into
    [None]. *)
Definition extract_fs3_paragraph (html : str) : option str :=
  match Re.search_fs3 html with
  | None => None
  | Some inner_html =>
      let inner_text := Re.sub_tags inner_html in
      let cleaned := join_space (split_ws inner_text) in
      if truthy (strip cleaned) then Some (strip cleaned) else None
  end.

Definition log_debug {S} (d : debug_line) : M S unit := emit (Debug d).

(** How one round of a [for] loop ends: by a [return] of the function, or
    by going on to the next round. *)
Inductive flow (A : Type) :=
  | Return (a : A)
  | Next.
Arguments Return {A} a.
Arguments Next {A}.

(** [if x:] on an optional string: neither [None] nor empty. *)
Definition is_true (x : option str) : bool :=
  match x with
  | Some s => truthy s
  | None => false
  end.

(** The body of the loop of [translate_with_retry] at one value of
    [attempt]. *)
Definition attempt_body (text sentence_id : str) (attempt : nat)
  : M Net (flow (option str * status)) :=
  try_except
    (let* html := call_klemy text in
     let translation := extract_fs3_paragraph html in
     if is_true translation then
       ret (Return (translation, success))
     else
       log_debug (DbgNoParagraph sentence_id (List.length html)) >>
       (if attempt =? MAX_RETRIES - 1
        then print (MsgNoTranslation sentence_id (upto 50 text))
        else ret tt) >>
       ret (Return (None, no_translation)))
    (fun e =>
       match e with
       | RequestException cause =>
           Some (if attempt <? MAX_RETRIES - 1 then
                   print (MsgAttemptError sentence_id (attempt + 1) cause) >>
                   sleep RETRY_DELAY >>
                   ret Next
                 else
                   print (MsgGaveUp sentence_id cause) >>
                   log_debug (DbgRequestFailed sentence_id cause) >>
                   ret (Return (None, error)))
       | _ => None
       end).

(** [for attempt in attempts: ...] followed by the last line of the
    function. *)
Fixpoint attempts_loop (text sentence_id : str) (attempts : list nat)
  : M Net (option str * status) :=
  match attempts with
  | [] => ret (None, error)
  | attempt :: rest =>
      let* f := attempt_body text sentence_id attempt in
      match f with
      | Return r => ret r
      | Next => attempts_loop text sentence_id rest
      end
  end.

Definition translate_with_retry (text sentence_id : str)
  : M Net (option str * status) :=
  attempts_loop text sentence_id (seq 0 MAX_RETRIES).

(** The loop of [load_processed_ids] over the rows read. *)
Definition add_processed (processed : gset str)
    (row : gmap str (option str)) : gset str :=
  match row !! lit "id" with
  | Some v => if is_true v then processed ∪ {[ default [] v ]} else processed
  | None => processed
  end.

(** [load_processed_ids]. [processed] is filled while the file is read, so
    that it holds the ids of the rows read before an exception. *)
Definition load_processed_ids : M World (gset str) :=
  let* f := get_file OUTPUT_CSV in
  match f with
  | None => ret ∅
  | Some content =>
      let '(rows, raised) := DictReader content in
      let processed := foldl add_processed ∅ rows in
      (if raised then
         print MsgCouldNotRead >>
         let* still := get_file OUTPUT_CSV in
         match still with
         | Some c =>
             set_file (fun fs => set_OUTPUT_CSV None (set_OUTPUT_CSV_BACKUP (Some c) fs)) >>
             print MsgBackedUp
         | None => ret tt
         end
       else ret tt) >>
      ret processed
  end.

(** [save_checkpoint]. A pending interrupt is delivered before the file is
    opened; one that arrives between the opening, which empties the file,
    and the write is not described. *)
Definition save_checkpoint (sentence_id : str) : M World unit :=
  lift tick >>
  set_file (set_CHECKPOINT_FILE (Some sentence_id)).

(** [load_checkpoint]: the file is read in text mode, then stripped. *)
Definition load_checkpoint : M World (option str) :=
  let* c := get_file CHECKPOINT_FILE in
  match c with
  | Some content => ret (Some (strip (universal_newlines content)))
  | None => ret None
  end.

(** What one line of the input adds to [sentences]. *)
Definition read_line (sentences : list (str * str)) (line : str)
  : list (str * str) :=
  let parts := split TAB (strip line) in
  match parts with
  | sentence_id :: lang :: text :: _ =>
      if bool_decide (lang = lit "eng")
      then sentences ++ [(sentence_id, text)]
      else sentences
  | _ => sentences
  end.

(** [read_sentences] *)
Definition read_sentences : M World (list (str * str)) :=
  let* f := get_file INPUT_TSV in
  match f with
  | None => raise FileNotFoundError
  | Some lines => ret (foldl read_line [] lines)
  end.

Definition OUTPUT_FIELDS : list str := [lit "id"; lit "english"; lit "tunisian"].
Definition FAILED_FIELDS : list str := [lit "id"; lit "english"; lit "status"].

(** The body of the loop of [main] for one sentence; the result tells
    whether the sentence went to the success sink. *)
Definition scrape_one (sentence_id english_text : str) : M World bool :=
  let* (tunisian_text, status) :=
    lift (translate_with_retry english_text sentence_id) in
  let* ok :=
    match status with
    | success =>
        lift tick >>
        set_file (fun fs => set_OUTPUT_CSV
          (write_row [sentence_id; english_text; default [] tunisian_text]
                     (OUTPUT_CSV fs)) fs) >>
        ret true
    | _ =>
        lift tick >>
        set_file (fun fs => set_FAILED_CSV
          (write_row [sentence_id; english_text; status_str status]
                     (FAILED_CSV fs)) fs) >>
        ret false
    end in
  save_checkpoint sentence_id >>
  lift (sleep REQUEST_DELAY) >>
  ret ok.

(** The loop of [main] inside its [try]: the two counters when the loop
    stops, and the exception that stopped it, if any. The counters are
    those of the rounds that ended; the code counts a sentence as soon as
    its row is flushed, so that the counters of a loop that an interrupt
    stopped are not described. *)
Fixpoint scrape_loop (sentences : list (str * str))
    (success_count fail_count : nat) : M World (nat * nat * option exn) :=
  match sentences with
  | [] => ret (success_count, fail_count, None)
  | (sentence_id, english_text) :: rest =>
      let* r := attempt (scrape_one sentence_id english_text) in
      match r with
      | Ok true => scrape_loop rest (success_count + 1) fail_count
      | Ok false => scrape_loop rest success_count (fail_count + 1)
      | Raise e => ret (success_count, fail_count, Some e)
      end
  end.

(** The first part of [main]: the sentences still to be translated. *)
Definition pending_sentences : M World (list (str * str)) :=
  print MsgStarting >>
  print MsgReading >>
  let* sentences := read_sentences in
  print (MsgFound (List.length sentences)) >>
  let* processed_ids := load_processed_ids in
  if bool_decide (processed_ids ≠ ∅) then
    print (MsgAlready (size processed_ids)) >>
    let sentences :=
      filter (fun s => fst s ∉ processed_ids) sentences in
    print (MsgRemaining (List.length sentences)) >>
    ret sentences
  else ret sentences.

(** The part of [main] that opens the two sinks for appending and writes
    the header of a sink that did not exist. *)
Definition open_sinks : M World unit :=
  let* file_exists := get_file (fun fs => bool_decide (is_Some (OUTPUT_CSV fs))) in
  set_file (fun fs => set_OUTPUT_CSV (open_append (OUTPUT_CSV fs)) fs) >>
  (if file_exists then ret tt
   else set_file (fun fs => set_OUTPUT_CSV
                    (write_row OUTPUT_FIELDS (OUTPUT_CSV fs)) fs)) >>
  let* failed_exists := get_file (fun fs => bool_decide (is_Some (FAILED_CSV fs))) in
  set_file (fun fs => set_FAILED_CSV (open_append (FAILED_CSV fs)) fs) >>
  (if failed_exists then ret tt
   else set_file (fun fs => set_FAILED_CSV
                    (write_row FAILED_FIELDS (FAILED_CSV fs)) fs)).

(** The [except KeyboardInterrupt] and [finally] clauses of [main], given
    how the loop ended; an exception other than the interrupt goes on
    after the [finally] clause. *)
Definition report (ended : nat * nat * option exn) : M World unit :=
  let '(success_count, fail_count, raised) := ended in
  (match raised with
   | Some KeyboardInterrupt => print MsgInterrupted
   | _ => ret tt
   end) >>
  print (MsgSummary success_count fail_count) >>
  let* last := load_checkpoint in
  (match last with
   | Some last_id => print (MsgLastProcessed last_id)
   | None => ret tt
   end) >>
  match raised with
  | Some KeyboardInterrupt | None => ret tt
  | Some e => raise e
  end.

(** [main] *)
Definition main : M World unit :=
  let* sentences := pending_sentences in
  match sentences with
  | [] => print MsgAllDone
  | _ =>
      open_sinks >>
      print MsgScraping >>
      let* ended := scrape_loop sentences 0 0 in
      report ended
  end.

End Scraper.

(** ** [retry_failed.py] *)

Module RetryFailed.

Import Py World.

Definition REQUEST_DELAY : Q := Scraper.REQUEST_DELAY.

Definition RETRY_FIELDS : list str :=
  [lit "id"; lit "english"; lit "tunisian"; lit "status"].

(** [row[key]]: [KeyError] when the file has no such column. For a row
    that is too short for the column the code gets [None] and goes on with
    it; the model does not follow such a run and stops it here with
    [TypeError]. The results about the re-processor leave these rows out:
    they are stated for failure sinks whose rows have a field for each
    column. *)
Definition getitem (row : gmap str (option str)) (key : str) : res str :=
  match row !! key with
  | None => Raise KeyError
  | Some None => Raise TypeError
  | Some (Some v) => Ok v
  end.

(** The loop that fills [failed]. *)
Fixpoint read_failed (rows : list (gmap str (option str)))
    (failed : list (str * str)) : res (list (str * str)) :=
  match rows with
  | [] => Ok failed
  | row :: rest =>
      match getitem row (lit "id"), getitem row (lit "english") with
      | Ok i, Ok e => read_failed rest (failed ++ [(i, e)])
      | Raise e, _ => Raise e
      | _, Raise e => Raise e
      end
  end.

(** The body of the loop of [main] for one failed sentence. *)
Definition retry_one (sentence_id english_text : str) : M World bool :=
  print (MsgRetrying sentence_id) >>
  let* (tunisian_text, status) :=
    lift (Scraper.translate_with_retry english_text sentence_id) in
  let* ok :=
    match status with
    | success =>
        lift tick >>
        set_file (fun fs => set_OUTPUT_CSV
          (write_row [sentence_id; english_text; default [] tunisian_text]
                     (OUTPUT_CSV fs)) fs) >>
        print MsgNowOk >>
        ret true
    | _ =>
        lift tick >>
        set_file (fun fs => set_RETRY_OUTPUT
          (write_row [sentence_id; english_text; default [] tunisian_text;
                      status_str status]
                     (RETRY_OUTPUT fs)) fs) >>
        print (MsgStillFailed status) >>
        ret false
    end in
  lift (sleep REQUEST_DELAY) >>
  ret ok.

(** The loop of [main]; its counters are those of the rounds that ended,
    as in [Scraper.scrape_loop]. *)
Fixpoint retry_loop (failed : list (str * str))
    (success_count still_failed : nat) : M World (nat * nat * option exn) :=
  match failed with
  | [] => ret (success_count, still_failed, None)
  | (sentence_id, english_text) :: rest =>
      let* r := attempt (retry_one sentence_id english_text) in
      match r with
      | Ok true => retry_loop rest (success_count + 1) still_failed
      | Ok false => retry_loop rest success_count (still_failed + 1)
      | Raise e => ret (success_count, still_failed, Some e)
      end
  end.

(** [main] *)
Definition main : M World unit :=
  let* f := get_file FAILED_CSV in
  match f with
  | None => print MsgNoFailedFile
  | Some content =>
      let '(rows, raised) := DictReader content in
      match read_failed rows [] with
      | Raise e => raise e
      | Ok failed =>
          if raised then raise CsvError else
          print (MsgFoundFailed (List.length failed)) >>
          match failed with
          | [] => print MsgNothingToRetry
          | _ =>
              set_file (fun fs => set_OUTPUT_CSV (open_append (OUTPUT_CSV fs)) fs) >>
              set_file (set_RETRY_OUTPUT (Some [Row RETRY_FIELDS])) >>
              let* (success_count, still_failed, raised) :=
                retry_loop failed 0 0 in
              (match raised with
               | Some KeyboardInterrupt => print MsgInterrupted
               | _ => ret tt
               end) >>
              print (MsgRetrySummary success_count still_failed) >>
              match raised with
              | Some KeyboardInterrupt | None => ret tt
              | Some e => raise e
              end
          end
      end
  end.

End RetryFailed.

(** ** [split_tsv.py] *)

Module SplitTsv.

Import Py World.

(** The two files of the utility, each the list of its lines. *)
Record Files := mkFiles {
  INPUT_TSV : option (list str);
  OUTPUT_TSV : option (list str);
}.

Definition START_ID : str := lit "10159624".

(** Console lines of the utility. *)
Inductive message :=
  | MsgReadingFrom
  | MsgStartingFrom (start_id : str)
  | MsgFoundStart (line_count : nat)
  | MsgNotFound (start_id : str)
  | MsgSummary (line_count written_count : nat).

(** [s.startswith(p)] *)
Fixpoint startswith (s p : str) : bool :=
  match p with
  | [] => true
  | c :: p' =>
      match s with
      | d :: s' => (d =? c)%N && startswith s' p'
      | [] => false
      end
  end.

(** The variables of the loop, the lines written to [outfile] and the
    console lines of the loop. *)
Record loop := mkLoop {
  found_start : bool;
  line_count : nat;
  written_count : nat;
  outfile : list str;
  printed : list message;
}.

(** The body of the loop for one line. *)
Definition step (start_id : str) (st : loop) (line : str) : loop :=
  let line_count := line_count st + 1 in
  let '(found_start, printed) :=
    if negb (found_start st) then
      if startswith line (start_id ++ [TAB])
      then (true, printed st ++ [MsgFoundStart line_count])
      else (false, printed st)
    else (found_start st, printed st) in
  if found_start then
    mkLoop found_start line_count (written_count st + 1)
           (outfile st ++ [line]) printed
  else
    mkLoop found_start line_count (written_count st) (outfile st) printed.

(** [split_tsv_from_id]. The input is opened first, so that a missing
    input leaves the output as it is; the output is opened for writing,
    hence emptied, and removed at the end when the id was not found. *)
Definition split_tsv_from_id (start_id : str) (fs : Files)
  : res unit * Files * list message :=
  match INPUT_TSV fs with
  | None =>
      (Raise FileNotFoundError, fs, [MsgReadingFrom; MsgStartingFrom start_id])
  | Some lines =>
      let st :=
        foldl (step start_id)
              (mkLoop false 0 0 [] [MsgReadingFrom; MsgStartingFrom start_id])
              lines in
      if negb (found_start st) then
        (Ok tt, mkFiles (Some lines) None,
         printed st ++ [MsgNotFound start_id])
      else
        (Ok tt, mkFiles (Some lines) (Some (outfile st)),
         printed st ++ [MsgSummary (line_count st) (written_count st)])
  end.

End SplitTsv.

(** ** Running the programs on examples *)

Module Examples.

Import Py World Scraper.

Definition quiet (answers : nat -> str -> response) : Net :=
  mkNet answers 0 None.

Definition page (s : string) : str :=
  lit "<p class=" ++ Re.QUOTE :: lit "fs-3" ++ Re.QUOTE :: lit ">" ++ lit s ++ lit "</p>".

Definition always_down : nat -> str -> response :=
  fun _ _ => NetworkError (lit "down").

Definition fresh (lines : list str) : Files :=
  mkFiles (Some lines) None None None None None.

Definition line (s : string) : str := lit s ++ [NL].

(** Three lines: a sentence, a row without its text, a sentence of another
    language. *)
Definition sample_lines : list str :=
  [lit "1" ++ TAB :: lit "eng" ++ TAB :: line "hello";
   lit "2" ++ TAB :: line "eng";
   lit "3" ++ TAB :: lit "fra" ++ TAB :: line "salut"].

(** An endpoint that is down for three requests and answers well from
    then on. *)
Definition down_then_up : nat -> str -> response :=
  fun k _ => if k <? 3 then NetworkError (lit "down") else Html (page "marhba").

Definition one_line : list str :=
  [lit "1" ++ TAB :: lit "eng" ++ TAB :: line "hello"].

(** A failure sink with one item, and an endpoint that answers well. *)
Definition one_failure : Files :=
  mkFiles None None None
    (Some [Row FAILED_FIELDS; Row [lit "1"; lit "hello"; lit "error"]])
    None None.

Definition always_up : nat -> str -> response :=
  fun _ _ => Html (page "marhba").

(** A failure sink with two items, and an endpoint that now translates the
    first and is down for the second. *)
Definition two_failures : Files :=
  mkFiles None None None
    (Some [Row FAILED_FIELDS;
           Row [lit "1"; lit "hello"; lit "no_translation"];
           Row [lit "2"; lit "bye"; lit "error"]])
    (Some [Row [lit "left"; lit "over"]]) None.

Definition up_for_hello : nat -> str -> response :=
  fun _ text =>
    if bool_decide (text = lit "hello") then Html (page "marhba")
    else NetworkError (lit "down").

(** A success sink of which the end cannot be read. *)
Definition torn_sink : csvfile :=
  [Row OUTPUT_FIELDS; Row [lit "1"; lit "hello"; lit "marhba"]; Garbled].

Definition two_lines : list str :=
  [lit "1" ++ TAB :: lit "eng" ++ TAB :: line "hello";
   lit "2" ++ TAB :: lit "eng" ++ TAB :: line "bye"].

(** An endpoint whose first answer carries no paragraph of the class, and
    which answers well from then on. *)
Definition empty_then_up : nat -> str -> response :=
  fun k _ => if k =? 0 then Html (lit "<html></html>") else Html (page "marhba").

End Examples.

(** Unfolds the combinators of the monad. *)
Ltac run_m :=
  cbv beta iota zeta delta
    [World.bind World.ret World.raise World.emit World.gets World.modify
     World.attempt World.try_except World.tick World.lift
     World.get_file World.set_file World.print World.sleep
     Scraper.log_debug Scraper.call_klemy];
  simpl.

(** ** What is observed of a run *)

Module Obs.

Import Py World Scraper Examples.

(** The requests of a run, and the time it slept. *)
Definition calls (o : list event) : list str :=
  omap (fun e => match e with Call t => Some t | _ => None end) o.

Definition sleeps (o : list event) : list Q :=
  omap (fun e => match e with Sleep d => Some d | _ => None end) o.

Definition elapsed (o : list event) : Q :=
  foldr Qplus 0%Q (sleeps o).

(** What a caller may receive from [translate_with_retry]. *)
Definition terminal (r : option str * status) : Prop :=
  match r with
  | (Some t, success) => t <> []
  | (None, no_translation) | (None, error) => True
  | _ => False
  end.

(** [m] is the literal [pat] up to case. *)
Definition imatches (pat m : str) : Prop :=
  Forall2 (fun p c => Re.ieq p c = true) pat m.

(** The tab characters of a line. *)
Definition tabs (s : str) : nat := List.length (filter (fun c => c = TAB) s).

(** What one line of the input gives to [read_sentences]. *)
Definition line_items (line : str) : list (str * str) := read_line [] line.

(** A row of at least three tab-separated fields, of which [sentence_id],
    [lang] and [text] are the first three. *)
Definition well_formed_row (s sentence_id lang text : str) : Prop :=
  exists more,
    s = sentence_id ++ TAB :: lang ++ TAB :: text ++ more
    /\ (TAB ∉ sentence_id) /\ (TAB ∉ lang) /\ (TAB ∉ text)
    /\ (more = [] \/ exists m, more = TAB :: m).

(** The id that [load_processed_ids] takes from a record of a sink whose
    first column is the id. *)
Definition row_id (r : record) : option str :=
  match r with
  | Row (i :: _) => if truthy i then Some i else None
  | _ => None
  end.

(** The ids of the data rows of a sink. *)
Definition data_ids (f : option csvfile) : list str :=
  match f with
  | Some (_ :: rows) => omap row_id rows
  | _ => []
  end.

(** A success sink as the driver leaves it: absent, or readable and
    headed by [id,english,tunisian]. *)
Definition sink_ready (f : option csvfile) : Prop :=
  f = None
  \/ exists rows, f = Some (Row OUTPUT_FIELDS :: rows) /\ Garbled ∉ rows.

(** The records of a file, none for a file that does not exist. *)
Definition content (f : option csvfile) : csvfile := default [] f.

(** The row of the failure sink for one item. *)
Definition failure_row (item : str * str * str) : record :=
  Row [item.1.1; item.1.2; item.2].

(** The outcomes of the retry policy on the items of a run, one after the
    other, each from the state in which the one before left the endpoint. *)
Fixpoint outcomes (failed : list (str * str)) (n : Net)
  : list (option str * status) :=
  match failed with
  | [] => []
  | (sentence_id, text) :: rest =>
      match translate_with_retry text sentence_id n with
      | (Ok r, n', _) => r :: outcomes rest n'
      | (Raise _, _, _) => []
      end
  end.

(** The row that the re-processor owes to the success sink, and the one it
    owes to the retry-results sink, for an item and its outcome. *)
Definition success_row (x : (str * str) * (option str * status))
  : option (list str) :=
  match x with
  | ((sentence_id, text), (t, success)) => Some [sentence_id; text; default [] t]
  | _ => None
  end.

Definition retry_row (x : (str * str) * (option str * status))
  : option (list str) :=
  match x with
  | (_, (_, success)) => None
  | ((sentence_id, text), (t, st)) =>
      Some [sentence_id; text; default [] t; status_str st]
  end.

(** The row that the driver owes to the failure sink. *)
Definition failed_row (x : (str * str) * (option str * status))
  : option (list str) :=
  match x with
  | (_, (_, success)) => None
  | ((sentence_id, text), (_, st)) => Some [sentence_id; text; status_str st]
  end.

(** The checkpoint marker after the driver went through [sentences]. *)
Definition marker_after (sentences : list (str * str)) (old : option str)
  : option str :=
  foldl (fun _ s => Some s.1) old sentences.

(** The sentences that the driver keeps, given the ids already done. *)
Definition pending_of (sentences : list (str * str)) (processed : gset str)
  : list (str * str) :=
  if bool_decide (processed <> ∅)
  then filter (fun s => s.1 ∉ processed) sentences
  else sentences.

(** A sink when the driver has opened it: created with its header if it
    was missing. *)
Definition opened (fields : list str) (f : option csvfile) : option csvfile :=
  match f with
  | None => Some [Row fields]
  | Some c => Some c
  end.

(** No id in more than one data row of a sink. *)
Definition unique_ids (f : option csvfile) : Prop := NoDup (data_ids f).



(** The claim of an idempotent resume, for a first run from [w]. *)
Definition resume_is_idempotent (w : World) : Prop :=
  let w1 := (main w).1.2 in
  let '(_, w2, o2) := main w1 in
  calls o2 = []
  /\ OUTPUT_CSV (files w2) = OUTPUT_CSV (files w1)
  /\ FAILED_CSV (files w2) = FAILED_CSV (files w1)
  /\ RETRY_OUTPUT (files w2) = RETRY_OUTPUT (files w1).

(** Rows written one after the other. *)
Definition write_rows (rows : list (list str)) (f : option csvfile)
  : option csvfile :=
  foldl (fun f row => write_row row f) f rows.


(** The events of a run other than its console lines: the requests, the
    sleeps and the lines of the diagnostic log. *)
Definition is_console (e : event) : bool :=
  match e with
  | Print _ => true
  | _ => false
  end.

Definition wire (o : list event) : list event :=
  filter (fun e => is_console e = false) o.

(** The files without the checkpoint marker. *)
Definition forget_checkpoint (fs : Files) : Files :=
  set_CHECKPOINT_FILE None fs.

(** Two states of the world that differ at most in the checkpoint marker. *)
Definition sim (w1 w2 : World) : Prop :=
  forget_checkpoint (files w1) = forget_checkpoint (files w2)
  /\ net w1 = net w2.

(** A computation that takes such states to such states, with the same
    result and the same events apart from console lines. *)
Definition respects {A} (m : M World A) : Prop :=
  forall w1 w2,
    sim w1 w2 ->
    (m w1).1.1 = (m w2).1.1
    /\ sim (m w1).1.2 (m w2).1.2
    /\ wire (m w1).2 = wire (m w2).2.

(** [csv.field_size_limit()], the longest field that the reader accepts. *)
Definition field_size_limit : N := 131072%N.

(** A field that [csv.DictReader], on a file opened in text mode, hands
    back as [csv.DictWriter] wrote it: no longer than the limit, above
    which the reader raises, and without a carriage return, which comes
    back as a newline. *)
Definition fits (field : str) : bool :=
  (N.of_nat (List.length field) <=? field_size_limit)%N
  && negb (existsb (fun c => (c =? CR)%N) field).

(** A sink of which every record is read back as it was written. *)
Definition reads_back (f : option csvfile) : Prop :=
  Forall (fun r => match r with
                   | Row fields => Forall (fun field => fits field = true) fields
                   | Garbled => False
                   end)
         (content f).

(** The claim that the items are the pairs of the rows tagged [eng], for
    rows read on the lines as they are in the file. *)
Definition reads_rows_as_worded : Prop :=
  forall line i lang text,
    well_formed_row line i lang text ->
    line_items line
    = if bool_decide (lang = lit "eng") then [(i, text)] else [].

End Obs.

(** ** Further views of a run *)

Module Views.

Import Py World Scraper Examples Obs.

(** The requests and the sleeps of a run, in the order of the run. *)
Definition is_timed (e : event) : bool :=
  match e with
  | Call _ | Sleep _ => true
  | _ => false
  end.

Definition timeline (o : list event) : list event :=
  filter (fun e => is_timed e = true) o.

(** Requests that are each followed by a sleep of at least the delay
    between requests. *)
Inductive paced : list event -> Prop :=
  | paced_nil : paced []
  | paced_step text d rest :
      (REQUEST_DELAY <= d)%Q ->
      paced rest ->
      paced (Call text :: Sleep d :: rest).

(** [j] failed requests for [text], each with the sleep that follows it. *)
Definition rounds (j : nat) (text : str) : list event :=
  concat (replicate j [Call text; Sleep RETRY_DELAY]).

(** A computation whose requests are paced when no interrupt is pending,
    and which then leaves none pending. *)
Definition keeps_pace {A} (m : M World A) : Prop :=
  forall w,
    sigint (net w) = None ->
    paced (timeline (m w).2) /\ sigint (net (m w).1.2) = None.

(** A relation between the files before and after that a computation
    keeps, whatever the endpoint answers and at whichever of its points an
    interrupt is delivered. *)
Definition steady {A} (R : Files -> Files -> Prop) (m : M World A) : Prop :=
  forall w, R (files w) (files (m w).1.2).

(** What the driver never does to the files once it knows its pending
    sentences: the input, the backup and the retry-results sink are left
    alone, and the two sinks only grow at their end. *)
Definition driver_frame (a b : Files) : Prop :=
  INPUT_TSV b = INPUT_TSV a
  /\ OUTPUT_CSV_BACKUP b = OUTPUT_CSV_BACKUP a
  /\ RETRY_OUTPUT b = RETRY_OUTPUT a
  /\ content (OUTPUT_CSV a) `prefix_of` content (OUTPUT_CSV b)
  /\ content (FAILED_CSV a) `prefix_of` content (FAILED_CSV b).

(** What the re-processor never does: the input, the backup, the marker
    and the failure sink are left alone, and the success sink only grows
    at its end. *)
Definition reprocessor_frame (a b : Files) : Prop :=
  INPUT_TSV b = INPUT_TSV a
  /\ OUTPUT_CSV_BACKUP b = OUTPUT_CSV_BACKUP a
  /\ CHECKPOINT_FILE b = CHECKPOINT_FILE a
  /\ FAILED_CSV b = FAILED_CSV a
  /\ content (OUTPUT_CSV a) `prefix_of` content (OUTPUT_CSV b).

(** An endpoint that is down for two requests and answers well from then
    on. *)
Definition down_twice : nat -> str -> response :=
  fun k _ => if k <? 2 then NetworkError (lit "down") else Html (page "marhba").

(** The status that goes with what the extraction gives. *)
Definition status_of (translation : option str) : status :=
  match translation with
  | Some _ => success
  | None => no_translation
  end.

(** A string without white space other than single spaces between its
    words. *)
Fixpoint single_spaced (s : str) : bool :=
  match s with
  | [] => true
  | c :: r =>
      (if isspace c
       then (c =? SPACE)%N
            && match r with [] => false | d :: _ => negb (isspace d) end
       else true)
      && single_spaced r
  end.

(** The opening tag [<p class="fs-3">]. *)
Definition OPEN_FS3 : str :=
  lit "<p class=" ++ Re.QUOTE :: lit "fs-3" ++ Re.QUOTE :: lit ">".

(** [x or None] after the normalisation of white space. *)
Definition words_of (body : str) : option str :=
  let cleaned := join_space (split_ws body) in
  if truthy cleaned then Some cleaned else None.

(** The lines that a run adds to the diagnostic log. *)
Definition debug_lines (o : list event) : list debug_line :=
  omap (fun e => match e with Debug d => Some d | _ => None end) o.

(** What the diagnostic log owes to an outcome of the retry policy for the
    sentence [sentence_id]: nothing for a success, one line for an answer
    without a translation, one line for a request that failed for good. *)
Definition logged (sentence_id : str) (st : status) (ds : list debug_line)
  : Prop :=
  match st with
  | success => ds = []
  | no_translation => exists html_length, ds = [DbgNoParagraph sentence_id html_length]
  | error => exists cause, ds = [DbgRequestFailed sentence_id cause]
  end.

(** A file of rows in which every row that is not blank has a field for
    each column of the header. *)
Definition full_rows (f : option csvfile) : Prop :=
  match f with
  | Some (Row fieldnames :: rows) =>
      Forall (fun r => match r with
                       | Row fields =>
                           fields = []
                           \/ List.length fieldnames <= List.length fields
                       | Garbled => True
                       end) rows
  | _ => True
  end.

(** A word of [str.split()]: not empty, without white space. *)
Definition word (w : str) : Prop :=
  w <> [] /\ Forall (fun c => isspace c = false) w.

(** Requests and sleeps of a run that was cut short or not: what a paced
    run starts with, so that no two of its requests are without a sleep
    of the delay between them. *)
Definition spaced (t : list event) : Prop := exists rest, paced (t ++ rest).

(** A computation without a request or a sleep, and one whose requests
    are spaced, whatever the endpoint answers and at whichever of its
    points an interrupt is delivered. *)
Definition silent {A} (m : M World A) : Prop :=
  forall w, timeline (m w).2 = [].

Definition spaces {A} (m : M World A) : Prop :=
  forall w, spaced (timeline (m w).2).

End Views.

(** ** The embedding at work *)

Module Tests.

Import Py World Scraper Examples.

Example strip_both_ends :
  strip (lit "  a b ") = lit "a b".
Proof. reflexivity. Qed.

Example split_keeps_empty_fields :
  split TAB (lit "a" ++ TAB :: TAB :: lit "b") = [lit "a"; []; lit "b"].
Proof. reflexivity. Qed.

Example split_ws_runs :
  split_ws (lit " a  bc " ++ [NL] ++ lit "d") = [lit "a"; lit "bc"; lit "d"].
Proof. reflexivity. Qed.

(** Nested tags are removed and white space is normalised. *)
Example extract_paragraph :
  extract_fs3_paragraph (page "  a <b>bb</b>  c ") = Some (lit "a bb c").
Proof. vm_compute. reflexivity. Qed.

(** The tag and the attribute are found whatever their case, among other
    attributes, and the first paragraph of the class is the one taken. *)
Example extract_ignores_case :
  extract_fs3_paragraph
    (lit "<div><P id=x CLASS=" ++ Re.QUOTE :: lit "FS-3" ++ Re.QUOTE
       :: lit " lang=ar>one</P><p>two</p>")
  = Some (lit "one").
Proof. vm_compute. reflexivity. Qed.

(** A paragraph of another class, and a paragraph with nothing but tags
    and white space, give [None]. *)
Example extract_other_class :
  extract_fs3_paragraph (lit "<p class=x>one</p>") = None.
Proof. vm_compute. reflexivity. Qed.

Example extract_blank_paragraph :
  extract_fs3_paragraph (page " <br> ") = None.
Proof. vm_compute. reflexivity. Qed.

(** A [<] whose [>] lies beyond a newline is not a tag for [re.sub]. *)
Example sub_tags_newline :
  Re.sub_tags (lit "x<a" ++ [NL] ++ lit "b>y<c>z") = lit "x<a" ++ [NL] ++ lit "b>yz".
Proof. reflexivity. Qed.

(** One transport failure, then an answer: two requests, one sleep. *)
Example retry_once :
  translate_with_retry (lit "hi") (lit "7")
    (quiet (fun k _ => if k =? 0 then NetworkError (lit "reset")
                       else Html (page "marhba")))
  = (Ok (Some (lit "marhba"), success),
     mkNet (fun k _ => if k =? 0 then NetworkError (lit "reset")
                       else Html (page "marhba")) 2 None,
     [Call (lit "hi"); Print (MsgAttemptError (lit "7") 1 (lit "reset"));
      Sleep RETRY_DELAY; Call (lit "hi")]).
Proof. vm_compute. reflexivity. Qed.

(** An interrupt during the sleep between two attempts leaves the policy
    as [KeyboardInterrupt], not as an outcome. *)
Example retry_interrupted :
  (translate_with_retry (lit "hi") (lit "7")
     (mkNet always_down 0 (Some 1))).1.1
  = Raise KeyboardInterrupt.
Proof. vm_compute. reflexivity. Qed.

(** A run of the driver over two sentences, interrupted while the second
    is requested: the first has its row and the marker, the sinks are
    left as they are at that point. *)
Example main_interrupted :
  files (main (mkWorld (fresh two_lines) (mkNet always_up 0 (Some 4)))).1.2
  = mkFiles (Some two_lines)
      (Some [Row OUTPUT_FIELDS; Row [lit "1"; lit "hello"; lit "marhba"]])
      None (Some [Row FAILED_FIELDS]) None (Some (lit "1")).
Proof. vm_compute. reflexivity. Qed.

(** A carriage return in the checkpoint marker is read back as a
    newline. *)
Example checkpoint_carriage_return :
  (load_checkpoint
     (mkWorld (set_CHECKPOINT_FILE (Some (lit "12" ++ CR :: lit "34"))
                                   (fresh []))
              (quiet always_up))).1.1
  = Ok (Some (lit "12" ++ NL :: lit "34")).
Proof. vm_compute. reflexivity. Qed.

End Tests.

(** ** Strings *)

Module Strings.

Import Py.

Lemma lstrip_suffix s : exists p, s = p ++ lstrip s.
Proof.
  induction s as [|c s [p IH]]; [by exists []|].
  simpl. destruct (isspace c).
  - exists (c :: p). simpl. by rewrite <- IH.
  - by exists [].
Qed.

Lemma lstrip_head s c r : lstrip s = c :: r -> isspace c = false.
Proof.
  induction s as [|d s IH]; simpl; [discriminate|].
  destruct (isspace d) eqn:E; [exact IH|].
  intros [= -> _]. exact E.
Qed.

Lemma rstrip_prefix s : exists q, s = rstrip s ++ q.
Proof.
  unfold rstrip. destruct (lstrip_suffix (rev s)) as [p Hp].
  exists (rev p). rewrite <- rev_app_distr, <- Hp. by rewrite rev_involutive.
Qed.

Lemma strip_decomp s : exists p q, s = p ++ strip s ++ q.
Proof.
  unfold strip. destruct (lstrip_suffix s) as [p Hp].
  destruct (rstrip_prefix (lstrip s)) as [q Hq].
  exists p, q. by rewrite <- Hq.
Qed.

(** A stripped string does not start with white space. *)
Lemma strip_head s c r : strip s = c :: r -> isspace c = false.
Proof.
  unfold strip. destruct (rstrip_prefix (lstrip s)) as [q Hq].
  intros H. rewrite H in Hq. simpl in Hq. by apply lstrip_head in Hq.
Qed.

Lemma lstrip_app_spaces u v :
  Forall (fun c => isspace c = true) u -> lstrip (u ++ v) = lstrip v.
Proof.
  induction 1 as [|c u Hc _ IH]; [done|]. simpl. by rewrite Hc.
Qed.

Lemma rstrip_app_spaces s w :
  Forall (fun c => isspace c = true) w -> rstrip (s ++ w) = rstrip s.
Proof.
  intros Hw. unfold rstrip. rewrite rev_app_distr.
  rewrite lstrip_app_spaces; [done|]. by apply List.Forall_rev.
Qed.

(** White space at the end of a line does not count. *)
Lemma strip_app_spaces s w :
  Forall (fun c => isspace c = true) w -> strip (s ++ w) = strip s.
Proof.
  intros Hw. unfold strip. induction s as [|c s IH].
  - simpl. rewrite <- (app_nil_r w), lstrip_app_spaces by done. done.
  - simpl. destruct (isspace c); [exact IH|].
    by apply (rstrip_app_spaces (c :: s)).
Qed.

Lemma split_length sep s :
  List.length (split sep s) = S (List.length (filter (fun c => c = sep) s)).
Proof.
  induction s as [|c s IH]; [done|].
  rewrite filter_cons. simpl. destruct (N.eqb_spec c sep) as [->|Hne].
  - rewrite decide_True by done. simpl. by rewrite IH.
  - rewrite decide_False by done.
    destruct (split sep s) as [|p ps]; [done|]. exact IH.
Qed.

Lemma split_not_nil sep s : split sep s <> [].
Proof.
  intros H. pose proof (split_length sep s) as L. rewrite H in L. done.
Qed.

(** The first field and the rest of a split. *)
Lemma split_cons sep s a l :
  split sep s = a :: l ->
  (sep ∉ a)
  /\ match l with
     | [] => s = a
     | _ => exists r, s = a ++ sep :: r /\ split sep r = l
     end.
Proof.
  revert a l. induction s as [|c s IH]; intros a l; simpl.
  - intros [= <- <-]. split; [set_solver|done].
  - destruct (N.eqb_spec c sep) as [->|Hne].
    + intros [= <- <-]. split; [set_solver|].
      pose proof (split_not_nil sep s).
      destruct (split sep s) eqn:E; [done|]. exists s. done.
    + destruct (split sep s) as [|p ps] eqn:E; [by apply split_not_nil in E|].
      intros [= <- <-]. destruct (IH p ps eq_refl) as [Hp Hl].
      split; [set_solver|].
      destruct ps; [by subst|].
      destruct Hl as (r & -> & Hr). exists r. done.
Qed.

Lemma split_none sep a : sep ∉ a -> split sep a = [a].
Proof.
  induction a as [|c a IH]; intros H; [done|]. simpl.
  destruct (N.eqb_spec c sep) as [->|Hne]; [set_solver|].
  rewrite IH by set_solver. done.
Qed.

Lemma split_app sep a r : sep ∉ a -> split sep (a ++ sep :: r) = a :: split sep r.
Proof.
  induction a as [|c a IH]; intros H; simpl.
  - by rewrite N.eqb_refl.
  - destruct (N.eqb_spec c sep) as [->|Hne]; [set_solver|].
    rewrite IH by set_solver. done.
Qed.

End Strings.

(** ** The paragraph of the answer *)

Module Paragraph.

Import Py Re Scraper Obs.

Lemma imatch_split pat s r :
  imatch pat s = Some r -> exists m, s = m ++ r /\ imatches pat m.
Proof.
  revert s. induction pat as [|p pat IH]; intros s; simpl.
  - intros [= ->]. exists []. split; [done|constructor].
  - destruct s as [|c s]; [discriminate|].
    destruct (ieq p c) eqn:E; [|discriminate].
    intros H. destruct (IH s H) as (m & -> & Hm).
    exists (c :: m). split; [done|]. by constructor.
Qed.

Lemma span_tag_split s a b :
  span_tag s = (a, b) ->
  s = a ++ b /\ (GT ∉ a) /\ match b with [] => True | c :: _ => c = GT end.
Proof.
  revert a b. induction s as [|c s IH]; intros a b; simpl.
  - intros [= <- <-]. split; [done|]. split; [set_solver|done].
  - destruct (N.eqb_spec c GT) as [->|Hne].
    + intros [= <- <-]. split; [done|]. split; [set_solver|done].
    + destruct (span_tag s) as [a' b'].
      intros [= <- <-]. destruct (IH a' b' eq_refl) as (-> & Ha & Hb).
      split; [done|]. split; [set_solver|done].
Qed.

Lemma until_lit_split pat s g :
  until_lit pat s = Some g ->
  exists rest,
    s = g ++ rest
    /\ is_Some (imatch pat rest)
    /\ forall k, k < List.length g -> imatch pat (drop k s) = None.
Proof.
  revert g. induction s as [|c s IH]; intros g; simpl.
  - destruct (imatch pat []) eqn:E; [|discriminate].
    intros [= <-]. exists []. rewrite E. split; [done|].
    split; [done|]. simpl. lia.
  - destruct (imatch pat (c :: s)) eqn:E.
    + intros [= <-]. exists (c :: s). rewrite E. split; [done|].
      split; [done|]. simpl. lia.
    + destruct (until_lit pat s) as [g'|]; [|discriminate].
      intros [= <-]. destruct (IH g' eq_refl) as (rest & -> & Hr & Hk).
      exists rest. split; [done|]. split; [done|].
      intros [|k] Hlt; [exact E|]. simpl in *. apply Hk. lia.
Qed.

(** What [match_here] finds is a match of the pattern: the tag opens with
    [<p], its attributes hold no [>] and hold the class, and the group is
    the text up to the first [</p>] after the [>] of the tag. *)
Lemma match_here_shape s g :
  match_here s = Some g ->
  exists tag attrs close rest,
    s = tag ++ attrs ++ GT :: g ++ close ++ rest
    /\ imatches (lit "<p") tag
    /\ (GT ∉ attrs)
    /\ icontains CLASS_FS3 attrs = true
    /\ imatches (lit "</p>") close
    /\ forall k, k < List.length g ->
                 imatch (lit "</p>") (drop k (g ++ close ++ rest)) = None.
Proof.
  unfold match_here.
  destruct (imatch (lit "<p") s) as [r|] eqn:Ep; [|discriminate].
  destruct (span_tag r) as [attrs rest] eqn:Es.
  destruct (icontains CLASS_FS3 attrs) eqn:Ec; [|discriminate].
  destruct rest as [|c body]; [discriminate|]. intros Hu.
  apply imatch_split in Ep as (tag & -> & Htag).
  apply span_tag_split in Es as (-> & Ha & ->).
  apply until_lit_split in Hu as (rest & -> & [r' Hr] & Hk).
  apply imatch_split in Hr as (close & -> & Hclose).
  exists tag, attrs, close, r'. done.
Qed.

(** The paragraph extracted is never empty and holds no white space other
    than single spaces between its words. *)
Lemma extract_shape html t :
  extract_fs3_paragraph html = Some t ->
  t <> [] /\ exists inner, Re.search_fs3 html = Some inner
                          /\ t = strip (join_space (split_ws (sub_tags inner))).
Proof.
  unfold extract_fs3_paragraph.
  destruct (search_fs3 html) as [inner|]; [|discriminate].
  destruct (strip _) as [|c r] eqn:E; simpl; [discriminate|].
  intros [= <-]. split; [done|]. exists inner. done.
Qed.

End Paragraph.

(** ** The input collection *)

Module Input.

Import Py World Scraper Examples Obs Strings.

Lemma tabs_none s : TAB ∉ s -> filter (fun c => c = TAB) s = [].
Proof.
  induction s as [|c s IH]; intros H; [done|].
  rewrite filter_cons_False by set_solver. apply IH. set_solver.
Qed.

Lemma tabs_strip line : tabs (strip line) <= tabs line.
Proof.
  unfold tabs. destruct (strip_decomp line) as (p & q & H).
  rewrite H at 2. rewrite !filter_app, !length_app. lia.
Qed.

(** The loop of [read_sentences] adds the items of each line at the end,
    in the order of the file. *)
Lemma read_line_acc acc line : read_line acc line = acc ++ line_items line.
Proof.
  unfold line_items, read_line.
  destruct (split TAB (strip line)) as [|a [|b [|c l]]];
    try (by rewrite app_nil_r).
  case_bool_decide; [done|by rewrite app_nil_r].
Qed.

Lemma read_lines_acc acc lines :
  foldl read_line acc lines = acc ++ flat_map line_items lines.
Proof.
  revert acc. induction lines as [|l ls IH]; intros acc; simpl.
  - by rewrite app_nil_r.
  - rewrite IH, read_line_acc. by rewrite <- app_assoc.
Qed.

Lemma line_items_few_tabs line : tabs line < 2 -> line_items line = [].
Proof.
  intros H. pose proof (tabs_strip line) as Hs.
  pose proof (split_length TAB (strip line)) as L. fold (tabs (strip line)) in L.
  unfold line_items, read_line.
  destruct (split TAB (strip line)) as [|a [|b [|c l]]]; try done.
  simpl in L. lia.
Qed.

Lemma well_formed_split s i lang text :
  well_formed_row s i lang text ->
  exists l, split TAB s = i :: lang :: text :: l.
Proof.
  intros (more & -> & Hi & Hl & Ht & Hm).
  rewrite split_app by done. rewrite split_app by done.
  destruct Hm as [->|[m ->]].
  - rewrite app_nil_r, split_none by done. eauto.
  - rewrite split_app by done. eauto.
Qed.

Lemma split_well_formed s i lang text l :
  split TAB s = i :: lang :: text :: l ->
  well_formed_row s i lang text.
Proof.
  intros H. apply split_cons in H as [Hi (r1 & -> & H)].
  apply split_cons in H as [Hl (r2 & -> & H)].
  apply split_cons in H as [Ht H].
  destruct l as [|x l].
  - subst r2. exists []. rewrite app_nil_r. eauto 10.
  - destruct H as (r3 & -> & _). exists (TAB :: r3). eauto 10.
Qed.

Lemma line_items_well_formed line i lang text :
  well_formed_row (strip line) i lang text ->
  line_items line = if bool_decide (lang = lit "eng") then [(i, text)] else [].
Proof.
  intros H. apply well_formed_split in H as [l H].
  unfold line_items, read_line. rewrite H. reflexivity.
Qed.

Lemma line_items_inv line :
  line_items line <> [] ->
  exists i text,
    well_formed_row (strip line) i (lit "eng") text
    /\ line_items line = [(i, text)].
Proof.
  unfold line_items, read_line.
  destruct (split TAB (strip line)) as [|a [|b [|c l]]] eqn:E; try done.
  case_bool_decide as Hb; [|done]. subst b. intros _.
  exists a, c. split; [|done]. by apply split_well_formed in E.
Qed.

(** The id of an item is never empty: the line was stripped before it was
    split, and a tab is white space. *)
Lemma line_items_id line i text : (i, text) ∈ line_items line -> i <> [].
Proof.
  intros Hin.
  destruct (line_items_inv line) as (i' & text' & Hw & Heq).
  { intros E. rewrite E in Hin. set_solver. }
  rewrite Heq in Hin. apply list_elem_of_singleton in Hin as [= -> ->].
  destruct Hw as (more & Hs & _). intros ->. simpl in Hs.
  apply strip_head in Hs. done.
Qed.

(** A row whose text column is empty: the tab before it goes with the
    line end when the line is stripped. *)
Lemma line_items_empty_text i :
  TAB ∉ i -> line_items (i ++ TAB :: lit "eng" ++ [TAB; NL]) = [].
Proof.
  intros Hi.
  replace (i ++ TAB :: lit "eng" ++ [TAB; NL])
    with ((i ++ TAB :: lit "eng") ++ [TAB; NL])
    by (by rewrite <- app_assoc).
  unfold line_items, read_line. rewrite strip_app_spaces.
  - apply line_items_few_tabs. unfold tabs.
    rewrite filter_app, length_app, tabs_none by done. vm_compute. lia.
  - repeat constructor.
Qed.

Lemma read_sentences_ok fs n lines :
  INPUT_TSV fs = Some lines ->
  read_sentences (mkWorld fs n)
  = (Ok (flat_map line_items lines), mkWorld fs n, []).
Proof.
  intros H. unfold read_sentences. run_m. rewrite H.
  rewrite read_lines_acc. reflexivity.
Qed.

(** C10. Malformed input rows are silently skipped, as the code has it:
    the rows are read on the lines stripped of the white space at their
    two ends, tabs included, as [line.strip()] leaves them.
    [read_sentences] returns, raising nothing, writing nothing and leaving
    the files as they are, the items of the lines in the order of the
    file, where a line with fewer than two tabs, hence fewer than three
    fields, gives no item, and a line gives an item exactly when, once
    stripped, it is a row of at least three fields whose second field is
    [eng]: the item is then the pair of the first and third fields of the
    stripped line. A row that carries [eng] and has no text column, or an
    empty one, is among the lines that give nothing. *)
Theorem read_sentences_rows fs n lines :
  INPUT_TSV fs = Some lines ->
  read_sentences (mkWorld fs n)
  = (Ok (flat_map line_items lines), mkWorld fs n, [])
  /\ (forall line, tabs line < 2 -> line_items line = [])
  /\ (forall i, TAB ∉ i -> line_items (i ++ TAB :: lit "eng" ++ [NL]) = [])
  /\ (forall i, TAB ∉ i ->
         line_items (i ++ TAB :: lit "eng" ++ [TAB; NL]) = [])
  /\ (forall line i lang text,
       well_formed_row (strip line) i lang text ->
       line_items line
       = if bool_decide (lang = lit "eng") then [(i, text)] else [])
  /\ (forall line,
       line_items line <> [] ->
       exists i text,
         well_formed_row (strip line) i (lit "eng") text
         /\ line_items line = [(i, text)]).
Proof.
  intros H. split; [|split; [|split; [|split; [|split]]]].
  - by apply read_sentences_ok.
  - apply line_items_few_tabs.
  - intros i Hi. apply line_items_few_tabs.
    unfold tabs. rewrite filter_app, length_app.
    rewrite tabs_none by done. vm_compute. lia.
  - apply line_items_empty_text.
  - apply line_items_well_formed.
  - apply line_items_inv.
Qed.

Lemma read_sentences_rows_witness :
  read_sentences (mkWorld (fresh sample_lines) (quiet always_down))
  = (Ok [(lit "1", lit "hello")],
     mkWorld (fresh sample_lines) (quiet always_down), []).
Proof.
  exact (proj1 (read_sentences_rows (fresh sample_lines) (quiet always_down)
                  sample_lines eq_refl)).
Defined.

(** C10, as stated, fails: the rows are not those of the lines as they
    are in the file. A line that starts with a tab has an empty first
    field and [6] for its language, and yet gives the item [(6, lead)],
    since the strip takes the tab away and [eng] becomes the second field;
    a row of three fields tagged [eng] whose text is one space gives no
    item, since the strip takes its text column away. *)
Lemma rows_read_after_strip :
  let shifted := TAB :: lit "6" ++ TAB :: lit "eng" ++ TAB :: lit "lead" in
  let blank := lit "1" ++ TAB :: lit "eng" ++ [TAB; SPACE] in
  well_formed_row shifted [] (lit "6") (lit "eng")
  /\ line_items shifted = [(lit "6", lit "lead")]
  /\ well_formed_row blank (lit "1") (lit "eng") [SPACE]
  /\ line_items blank = []
  /\ ~ reads_rows_as_worded.
Proof.
  assert (well_formed_row
            (lit "1" ++ TAB :: lit "eng" ++ [TAB; SPACE])
            (lit "1") (lit "eng") [SPACE]) as Hb.
  { exists []. split; [reflexivity|].
    repeat split; try (apply (bool_decide_unpack _); vm_compute; exact I).
    by left. }
  split; [|split; [|split; [|split]]].
  - exists (TAB :: lit "lead"). split; [reflexivity|].
    repeat split; try (apply (bool_decide_unpack _); vm_compute; exact I).
    right. by eexists.
  - vm_compute. reflexivity.
  - exact Hb.
  - vm_compute. reflexivity.
  - intros H. specialize (H _ _ _ _ Hb). vm_compute in H. discriminate.
Qed.

End Input.

(** ** The progress store *)

Module ProgressStore.

Import Py World Scraper Examples Obs.

(** A row at least as long as the header has no column left to fill. *)
Lemma row_dict_full fieldnames row :
  List.length fieldnames <= List.length row ->
  row_dict fieldnames row
  = list_to_map (reverse (zip fieldnames (Some <$> row))).
Proof.
  intros H. unfold row_dict. rewrite drop_ge by exact H. reflexivity.
Qed.

Lemma row_dict_output_id i row :
  row_dict OUTPUT_FIELDS (i :: row) !! lit "id" = Some (Some i).
Proof.
  destruct row as [|e [|t row]]; try (vm_compute; reflexivity).
  rewrite row_dict_full by (simpl; lia). vm_compute. reflexivity.
Qed.

Lemma row_dict_failed_id i e row :
  row_dict FAILED_FIELDS (i :: e :: row) !! lit "id" = Some (Some i).
Proof.
  destruct row as [|t row]; try (vm_compute; reflexivity).
  rewrite row_dict_full by (simpl; lia). vm_compute. reflexivity.
Qed.

Lemma row_dict_failed_english i e row :
  row_dict FAILED_FIELDS (i :: e :: row) !! lit "english" = Some (Some e).
Proof.
  destruct row as [|t row]; try (vm_compute; reflexivity).
  rewrite row_dict_full by (simpl; lia). vm_compute. reflexivity.
Qed.

Lemma reader_rows_readable c :
  Garbled ∉ c -> exists rows, reader_rows c = (rows, false) /\ c = Row <$> rows.
Proof.
  induction c as [|r c IH]; intros H.
  - by exists [].
  - destruct r as [fields|]; [|set_solver].
    destruct IH as (rows & Hr & ->); [set_solver|].
    exists (fields :: rows). simpl. by rewrite Hr.
Qed.

(** The loop of [load_processed_ids] over a sink headed by
    [id,english,tunisian]: the non-empty first fields of its rows. *)
Lemma add_processed_rows rows acc :
  foldl add_processed acc
        (row_dict OUTPUT_FIELDS <$> filter (fun r => r <> []) rows)
  = acc ∪ list_to_set (omap row_id (Row <$> rows)).
Proof.
  revert acc. induction rows as [|r rows IH]; intros acc.
  - simpl. set_solver.
  - destruct r as [|i r].
    + rewrite filter_cons_False by (intros H; by apply H).
      rewrite IH. reflexivity.
    + rewrite filter_cons_True by done. rewrite fmap_cons. cbn [foldl].
      rewrite IH. unfold add_processed.
      rewrite row_dict_output_id. simpl.
      destruct (truthy i); simpl; set_solver.
Qed.

Lemma load_processed_ids_ready fs n :
  sink_ready (OUTPUT_CSV fs) ->
  load_processed_ids (mkWorld fs n)
  = (Ok (list_to_set (data_ids (OUTPUT_CSV fs))), mkWorld fs n, []).
Proof.
  intros [H|(rows & H & Hg)]; unfold load_processed_ids; run_m; rewrite H.
  - reflexivity.
  - simpl. destruct (reader_rows_readable rows Hg) as (rs & Hr & ->).
    rewrite Hr. simpl. rewrite add_processed_rows.
    f_equal. f_equal. f_equal. set_solver.
Qed.

(** When the reading raises, the sink is renamed aside and the function
    returns. *)
Lemma load_processed_ids_corrupt fs n c :
  OUTPUT_CSV fs = Some c ->
  (DictReader c).2 = true ->
  exists processed,
    load_processed_ids (mkWorld fs n)
    = (Ok processed,
       mkWorld (set_OUTPUT_CSV None (set_OUTPUT_CSV_BACKUP (Some c) fs)) n,
       [Print MsgCouldNotRead; Print MsgBackedUp]).
Proof.
  intros H Hr. unfold load_processed_ids. run_m. rewrite H.
  destruct (DictReader c) as [rows raised]. simpl in Hr. subst raised.
  simpl. rewrite H. simpl. eexists. reflexivity.
Qed.

(** C7. Corrupt progress recovery. The success sink holds the row of
    sentence 1 and then cannot be read further: [load_processed_ids]
    renames it aside and returns, but the set it returns holds the id 1
    read before the exception, and the driver then leaves sentence 1 out
    of its pending items although the sink it starts afresh has no row
    for it. *)
Theorem corrupt_sink_keeps_read_ids :
  let fs := set_OUTPUT_CSV (Some torn_sink) (fresh two_lines) in
  let n := quiet always_down in
  (exists processed,
     load_processed_ids (mkWorld fs n)
     = (Ok processed,
        mkWorld (set_OUTPUT_CSV_BACKUP (Some torn_sink) (fresh two_lines)) n,
        [Print MsgCouldNotRead; Print MsgBackedUp])
     /\ lit "1" ∈ processed)
  /\ (pending_sentences (mkWorld fs n)).1.1 = Ok [(lit "2", lit "bye")].
Proof.
  split.
  - eexists. split; [reflexivity|].
    apply (bool_decide_unpack _). vm_compute. exact I.
  - vm_compute. reflexivity.
Qed.

End ProgressStore.

(** ** The retry policy *)

Module RetryPolicy.

Import Py World Scraper Examples Obs.

Lemma extract_not_empty html t :
  extract_fs3_paragraph html = Some t -> t <> [].
Proof.
  unfold extract_fs3_paragraph.
  destruct (Re.search_fs3 html) as [inner|]; [|discriminate].
  destruct (strip _) as [|c s] eqn:E; simpl; [discriminate|].
  intros [= <-]. discriminate.
Qed.

(** One round: what it returns, when no interrupt is pending. *)
Lemma attempt_body_quiet text sid attempt n :
  sigint n = None ->
  exists f o,
    attempt_body text sid attempt n
    = (Ok f, mkNet (remote n) (S (ncalls n)) None, o)
    /\ calls o = [text]
    /\ match f with
       | Return r => terminal r
       | Next => attempt < MAX_RETRIES - 1
       end.
Proof.
  intros Hq. destruct n as [rem k sg]; simpl in Hq; subst sg.
  unfold attempt_body.
  destruct (attempt =? MAX_RETRIES - 1) eqn:E1;
    destruct (attempt <? MAX_RETRIES - 1) eqn:E2;
    run_m;
    (destruct (rem k text) as [body|cause]; simpl;
     [ destruct (extract_fs3_paragraph body) as [t|] eqn:E; simpl;
       [ pose proof (extract_not_empty _ _ E) as Hne;
         destruct t as [|c t]; [done|]; simpl | ]
     | ]);
    (eexists _, _; split; [reflexivity|]; split; [reflexivity|]);
    try done.
  - apply Nat.ltb_lt in E2. exact E2.
  - apply Nat.ltb_lt in E2. exact E2.
Qed.

Lemma calls_app o1 o2 : calls (o1 ++ o2) = calls o1 ++ calls o2.
Proof. apply omap_app. Qed.

(** The whole loop, when no interrupt is pending: it returns, with a
    terminal outcome, after at most one request for each round. *)
Lemma attempts_loop_quiet text sid attempts n :
  sigint n = None ->
  exists r k o,
    attempts_loop text sid attempts n
    = (Ok r, mkNet (remote n) (ncalls n + k) None, o)
    /\ k <= List.length attempts
    /\ calls o = repeat text k
    /\ terminal r.
Proof.
  revert n. induction attempts as [|a rest IH]; intros n Hq.
  - exists (None, error), 0, []. simpl. unfold ret.
    destruct n as [rem k sg]; simpl in *; subst.
    rewrite Nat.add_0_r. done.
  - destruct (attempt_body_quiet text sid a n Hq) as (f & o & Hf & Hc & Hfl).
    simpl. unfold bind at 1. rewrite Hf.
    destruct f as [r|].
    + exists r, 1, o. unfold ret. rewrite app_nil_r, Nat.add_1_r.
      repeat split; [simpl; lia|exact Hc|exact Hfl].
    + destruct (IH (mkNet (remote n) (S (ncalls n)) None) eq_refl)
        as (r & k & o' & Hr & Hk & Hc' & Ht).
      rewrite Hr. exists r, (S k), (o ++ o'). simpl.
      rewrite calls_app, Hc, Hc'. simpl.
      replace (ncalls n + S k) with (S (ncalls n + k)) by lia.
      repeat split; [lia|exact Ht].
Qed.

Lemma translate_with_retry_quiet text sid n :
  sigint n = None ->
  exists r k o,
    translate_with_retry text sid n
    = (Ok r, mkNet (remote n) (ncalls n + k) None, o)
    /\ k <= MAX_RETRIES
    /\ calls o = repeat text k
    /\ terminal r.
Proof. intros Hq. apply (attempts_loop_quiet text sid (seq 0 MAX_RETRIES) n Hq). Qed.

(** With an interrupt pending or not, a round ends by a value or by
    [KeyboardInterrupt]: the [RequestException] of the request never
    leaves it. *)
Lemma attempt_body_raises text sid a n e :
  (attempt_body text sid a n).1.1 = Raise e -> e = KeyboardInterrupt.
Proof.
  destruct n as [rem k sg]. unfold attempt_body.
  destruct (a =? MAX_RETRIES - 1), (a <? MAX_RETRIES - 1);
    run_m;
    destruct sg as [[|j]|]; simpl; try congruence;
    (destruct (rem k text) as [body|cause]; simpl;
     [ destruct (is_true (extract_fs3_paragraph body)); simpl; congruence
     | try congruence ]);
    destruct j; simpl; congruence.
Qed.

Lemma attempt_body_terminal text sid a n r :
  (attempt_body text sid a n).1.1 = Ok (Return r) -> terminal r.
Proof.
  destruct n as [rem k sg]. unfold attempt_body.
  destruct (a =? MAX_RETRIES - 1), (a <? MAX_RETRIES - 1);
    run_m;
    destruct sg as [[|j]|]; simpl; try congruence;
    (destruct (rem k text) as [body|cause]; simpl;
     [ destruct (extract_fs3_paragraph body) as [t|] eqn:E; simpl;
       [ pose proof (extract_not_empty _ _ E) as Hne;
         destruct t as [|c t]; [done|]; simpl | ]
     | ]);
    try (intros [= <-]; done);
    try congruence;
    destruct j; simpl; try congruence; intros [= <-]; done.
Qed.

Lemma attempts_loop_outcome text sid attempts n :
  match (attempts_loop text sid attempts n).1.1 with
  | Ok r => terminal r
  | Raise e => e = KeyboardInterrupt
  end.
Proof.
  revert n. induction attempts as [|a rest IH]; intros n; [done|].
  simpl. unfold bind at 1.
  pose proof (attempt_body_raises text sid a n) as Hr.
  pose proof (attempt_body_terminal text sid a n) as Ht.
  destruct (attempt_body text sid a n) as [[[f|e] n1] o1]; simpl in *.
  - destruct f as [r|].
    + unfold ret. simpl. apply Ht. reflexivity.
    + specialize (IH n1).
      destruct (attempts_loop text sid rest n1) as [[r2 n2] o2]. exact IH.
  - apply Hr. reflexivity.
Qed.

(** C8. Single terminal outcome: [translate_with_retry] never lets a
    [RequestException] out; what it hands to its caller is one pair whose
    status is one of the three, with a non-empty translation exactly when
    the status is [success] and [None] otherwise; the only other way out is
    the operator's [KeyboardInterrupt], and with no interrupt pending the
    pair is always returned. *)
Theorem single_terminal_outcome text sid n :
  let r := (translate_with_retry text sid n).1.1 in
  (forall cause, r <> Raise (RequestException cause))
  /\ match r with
     | Ok (t, st) =>
         status_str st ∈ [lit "success"; lit "no_translation"; lit "error"]
         /\ ((st = success /\ exists s, t = Some s /\ s <> [])
             \/ (st <> success /\ t = None))
     | Raise e => e = KeyboardInterrupt
     end
  /\ (sigint n = None -> exists t st, r = Ok (t, st)).
Proof.
  intros r. subst r. unfold translate_with_retry.
  pose proof (attempts_loop_outcome text sid (seq 0 MAX_RETRIES) n) as H.
  split; [|split].
  - intros cause Hc. rewrite Hc in H. discriminate.
  - destruct (attempts_loop text sid (seq 0 MAX_RETRIES) n).1.1 as [[t st]|e];
      [|exact H].
    split.
    + destruct st; simpl; set_solver.
    + destruct t as [s|], st; simpl in H; try done.
      * left. eauto.
      * right. done.
      * right. done.
  - intros Hq.
    destruct (attempts_loop_quiet text sid (seq 0 MAX_RETRIES) n Hq)
      as ([t st] & k & o & Hr & _).
    rewrite Hr. eauto.
Qed.

Lemma single_terminal_outcome_witness :
  exists t st,
    (translate_with_retry (lit "hi") (lit "1") (quiet always_down)).1.1
    = Ok (t, st).
Proof.
  apply (single_terminal_outcome (lit "hi") (lit "1") (quiet always_down)).
  reflexivity.
Defined.

(** C4. Retry bound: when each of the [MAX_RETRIES] requests fails at the
    transport, [translate_with_retry] makes exactly [MAX_RETRIES] requests,
    sleeps [RETRY_DELAY] exactly [MAX_RETRIES - 1] times, which is all the
    time it lets pass, and returns [(None, error)]. *)
Theorem retry_bound text sid n :
  sigint n = None ->
  (forall k, k < MAX_RETRIES ->
     exists cause, remote n (ncalls n + k) text = NetworkError cause) ->
  exists n' o,
    translate_with_retry text sid n = (Ok (None, error), n', o)
    /\ calls o = repeat text MAX_RETRIES
    /\ ncalls n' = ncalls n + MAX_RETRIES
    /\ sleeps o = repeat RETRY_DELAY (MAX_RETRIES - 1)
    /\ (elapsed o == inject_Z (Z.of_nat (MAX_RETRIES - 1)) * RETRY_DELAY)%Q.
Proof.
  intros Hq Hdown. destruct n as [rem k sg]; simpl in *; subst sg.
  destruct (Hdown 0) as [c0 H0]; [unfold MAX_RETRIES; lia|].
  destruct (Hdown 1) as [c1 H1]; [unfold MAX_RETRIES; lia|].
  destruct (Hdown 2) as [c2 H2]; [unfold MAX_RETRIES; lia|].
  rewrite Nat.add_0_r in H0.
  replace (k + 1) with (S k) in H1 by lia.
  replace (k + 2) with (S (S k)) in H2 by lia.
  unfold translate_with_retry. simpl seq. unfold attempts_loop, attempt_body.
  run_m. rewrite H0. simpl. rewrite H1. simpl. rewrite H2. simpl.
  eexists _, _. split; [reflexivity|]. simpl.
  repeat split; try reflexivity. unfold MAX_RETRIES. lia.
Qed.

Lemma retry_bound_witness :
  exists n' o,
    translate_with_retry (lit "hi") (lit "1") (quiet always_down)
    = (Ok (None, error), n', o)
    /\ calls o = repeat (lit "hi") MAX_RETRIES
    /\ ncalls n' = 0 + MAX_RETRIES
    /\ sleeps o = repeat RETRY_DELAY (MAX_RETRIES - 1)
    /\ (elapsed o == inject_Z (Z.of_nat (MAX_RETRIES - 1)) * RETRY_DELAY)%Q.
Proof.
  apply (retry_bound (lit "hi") (lit "1") (quiet always_down)).
  - reflexivity.
  - intros k _. exists (lit "down"). reflexivity.
Defined.

(** An answer without a usable paragraph ends the policy at once, at
    whatever round it comes. *)
Lemma empty_fragment_returns text sid n html :
  sigint n = None ->
  remote n (ncalls n) text = Html html ->
  extract_fs3_paragraph html = None ->
  translate_with_retry text sid n
  = (Ok (None, no_translation),
     mkNet (remote n) (S (ncalls n)) None,
     [Call text; Debug (DbgNoParagraph sid (List.length html))]).
Proof.
  intros Hq Hr He. destruct n as [rem k sg]; simpl in *; subst sg.
  unfold translate_with_retry. simpl seq. unfold attempts_loop, attempt_body.
  run_m. rewrite Hr. simpl. rewrite He. simpl. reflexivity.
Qed.

(** C3. Empty-fragment re-attempt. The first answer holds no paragraph of
    the class and every later answer would give a translation:
    [translate_with_retry] returns [no_translation] after this one request,
    on the first of its three rounds. *)
Theorem empty_fragment_first_attempt :
  translate_with_retry (lit "hi") (lit "1") (quiet empty_then_up)
  = (Ok (None, no_translation),
     mkNet empty_then_up 1 None,
     [Call (lit "hi"); Debug (DbgNoParagraph (lit "1") 13)])
  /\ extract_fs3_paragraph (lit "<html></html>") = None
  /\ (forall k, 0 < k ->
       exists body, empty_then_up k (lit "hi") = Html body
                    /\ extract_fs3_paragraph body = Some (lit "marhba")).
Proof.
  split; [|split].
  - apply (empty_fragment_returns (lit "hi") (lit "1") (quiet empty_then_up)
             (lit "<html></html>")); reflexivity.
  - reflexivity.
  - intros [|k] Hk; [lia|]. eexists. split; reflexivity.
Qed.

End RetryPolicy.

(** ** The failure re-processor *)

Module Reprocessor.

Import Py World Scraper Examples Obs ProgressStore RetryPolicy.

Lemma write_rows_some rows c :
  write_rows rows (Some c) = Some (c ++ (Row <$> rows)).
Proof.
  revert c. induction rows as [|r rows IH]; intros c; simpl.
  - by rewrite app_nil_r.
  - unfold write_rows in *. simpl. rewrite IH. by rewrite <- app_assoc.
Qed.

Lemma reader_failure_rows items :
  reader_rows (failure_row <$> items)
  = ((fun it : str * str * str => [it.1.1; it.1.2; it.2]) <$> items, false).
Proof.
  induction items as [|it items IH]; [done|].
  rewrite !fmap_cons. simpl. rewrite IH. reflexivity.
Qed.

Lemma read_failed_rows items acc :
  RetryFailed.read_failed
    (row_dict FAILED_FIELDS
       <$> filter (fun r => r <> [])
             ((fun it : str * str * str => [it.1.1; it.1.2; it.2]) <$> items))
    acc
  = Ok (acc ++ (fst <$> items)).
Proof.
  revert acc. induction items as [|[[i e] st] items IH]; intros acc.
  - simpl. by rewrite app_nil_r.
  - rewrite fmap_cons. rewrite filter_cons_True by done. rewrite fmap_cons.
    cbn [RetryFailed.read_failed]. unfold RetryFailed.getitem. simpl fst. simpl snd.
    rewrite row_dict_failed_id, row_dict_failed_english.
    rewrite IH. rewrite <- app_assoc. reflexivity.
Qed.

(** The loop of the pass, when no interrupt is pending: every item is
    retried, and its row goes to the success sink or to the retry-results
    sink according to its outcome. *)
Lemma retry_loop_quiet failed fs n sc sf :
  sigint n = None ->
  let outs := outcomes failed n in
  exists sc' sf' n' o,
    RetryFailed.retry_loop failed sc sf (mkWorld fs n)
    = (Ok (sc', sf', None),
       mkWorld
         (mkFiles (INPUT_TSV fs)
            (write_rows (omap success_row (zip failed outs)) (OUTPUT_CSV fs))
            (OUTPUT_CSV_BACKUP fs) (FAILED_CSV fs)
            (write_rows (omap retry_row (zip failed outs)) (RETRY_OUTPUT fs))
            (CHECKPOINT_FILE fs))
         n', o)
    /\ sigint n' = None
    /\ List.length outs = List.length failed.
Proof.
  revert fs n sc sf. induction failed as [|[sid text] rest IH];
    intros fs n sc sf Hq outs.
  - exists sc, sf, n, []. destruct fs. done.
  - subst outs. simpl.
    destruct (translate_with_retry_quiet text sid n Hq)
      as ([t st] & k & o & Hr & _ & _ & Ht).
    rewrite Hr.
    unfold RetryFailed.retry_one. run_m. rewrite Hr. simpl.
    destruct st; simpl.
    + edestruct (IH (set_OUTPUT_CSV
                       (write_row [sid; text; default [] t] (OUTPUT_CSV fs)) fs)
                     (mkNet (remote n) (ncalls n + k) None) (sc + 1) sf eq_refl)
        as (sc' & sf' & n' & o' & Hl & Hq' & Hlen).
      rewrite Hl. simpl. eexists _, _, _, _.
      split; [reflexivity|]. split; [exact Hq'|]. simpl in *. congruence.
    + edestruct (IH (set_RETRY_OUTPUT
                       (write_row [sid; text; default [] t; status_str no_translation]
                                  (RETRY_OUTPUT fs)) fs)
                     (mkNet (remote n) (ncalls n + k) None) sc (sf + 1) eq_refl)
        as (sc' & sf' & n' & o' & Hl & Hq' & Hlen).
      rewrite Hl. simpl. eexists _, _, _, _.
      split; [reflexivity|]. split; [exact Hq'|]. simpl in *. congruence.
    + edestruct (IH (set_RETRY_OUTPUT
                       (write_row [sid; text; default [] t; status_str error]
                                  (RETRY_OUTPUT fs)) fs)
                     (mkNet (remote n) (ncalls n + k) None) sc (sf + 1) eq_refl)
        as (sc' & sf' & n' & o' & Hl & Hq' & Hlen).
      rewrite Hl. simpl. eexists _, _, _, _.
      split; [reflexivity|]. split; [exact Hq'|]. simpl in *. congruence.
Qed.

(** A whole pass over a failure sink written by the driver. *)
Lemma retry_pass fs n items :
  sigint n = None ->
  FAILED_CSV fs = Some (Row FAILED_FIELDS :: (failure_row <$> items)) ->
  items <> [] ->
  let failed := fst <$> items in
  let outs := outcomes failed n in
  exists n' o,
    RetryFailed.main (mkWorld fs n)
    = (Ok tt,
       mkWorld
         (mkFiles (INPUT_TSV fs)
            (Some (content (OUTPUT_CSV fs)
                   ++ (Row <$> omap success_row (zip failed outs))))
            (OUTPUT_CSV_BACKUP fs) (FAILED_CSV fs)
            (Some (Row RetryFailed.RETRY_FIELDS
                   :: (Row <$> omap retry_row (zip failed outs))))
            (CHECKPOINT_FILE fs))
         n', o)
    /\ List.length outs = List.length failed.
Proof.
  intros Hq Hf Hne failed outs.
  unfold RetryFailed.main. run_m. rewrite Hf.
  unfold DictReader. rewrite reader_failure_rows.
  rewrite read_failed_rows. simpl app. fold failed.
  destruct failed as [|f0 failed'] eqn:Ef.
  { destruct items; [done|discriminate]. }
  cbv beta iota zeta.
  set (fs1 := set_RETRY_OUTPUT (Some [Row RetryFailed.RETRY_FIELDS])
                (set_OUTPUT_CSV (open_append (OUTPUT_CSV fs)) fs)).
  destruct (retry_loop_quiet (f0 :: failed') fs1 n 0 0 Hq)
    as (sc & sf & n' & o & Hl & Hq' & Hlen).
  change ([] ++ f0 :: failed') with (f0 :: failed').
  cbv beta iota. cbn [files net]. fold fs1. rewrite Hl.
  cbv beta iota. eexists _, _. split; [|exact Hlen].
  subst fs1 outs. unfold set_RETRY_OUTPUT, set_OUTPUT_CSV.
  cbn [INPUT_TSV OUTPUT_CSV OUTPUT_CSV_BACKUP FAILED_CSV RETRY_OUTPUT
       CHECKPOINT_FILE].
  rewrite <- Hf.
  destruct (OUTPUT_CSV fs); cbn [open_append content default];
    rewrite !write_rows_some; reflexivity.
Qed.

(** C5. Re-processing merge: the failure sink holds the items A and B, the
    retry of A ends in success with a translation and the retry of B ends
    in [error]. After the pass the success sink is what it was with the row
    of A appended, and the retry-results sink is its header followed by
    the row of B alone, tagged [error]: it has no row for A. *)
Theorem reprocessing_merge fs n (a b : str * str) sa sb ta :
  sigint n = None ->
  FAILED_CSV fs
  = Some [Row FAILED_FIELDS; failure_row (a, sa); failure_row (b, sb)] ->
  outcomes [a; b] n = [(Some ta, success); (None, error)] ->
  exists n' o fs',
    RetryFailed.main (mkWorld fs n) = (Ok tt, mkWorld fs' n', o)
    /\ OUTPUT_CSV fs' = Some (content (OUTPUT_CSV fs) ++ [Row [a.1; a.2; ta]])
    /\ RETRY_OUTPUT fs'
       = Some [Row RetryFailed.RETRY_FIELDS; Row [b.1; b.2; []; lit "error"]]
    /\ (a.1 <> b.1 ->
        forall fields, Row (a.1 :: fields) ∉ tail (content (RETRY_OUTPUT fs'))).
Proof.
  intros Hq Hf Ho.
  destruct (retry_pass fs n [(a, sa); (b, sb)] Hq Hf) as (n' & o & Hm & _);
    [done|].
  cbn [fmap list_fmap fst] in Hm. rewrite Ho in Hm.
  destruct a as [ai ae], b as [bi be]. simpl in Hm.
  eexists _, _, _. split; [exact Hm|]. simpl.
  split; [reflexivity|]. split; [reflexivity|].
  intros Hne fields Hin. apply list_elem_of_singleton in Hin.
  injection Hin as Hin _. congruence.
Qed.

Lemma reprocessing_merge_witness :
  exists n' o fs',
    RetryFailed.main (mkWorld two_failures (quiet up_for_hello))
    = (Ok tt, mkWorld fs' n', o)
    /\ OUTPUT_CSV fs' = Some ([] ++ [Row [lit "1"; lit "hello"; lit "marhba"]])
    /\ RETRY_OUTPUT fs'
       = Some [Row RetryFailed.RETRY_FIELDS;
               Row [lit "2"; lit "bye"; []; lit "error"]]
    /\ (lit "1" <> lit "2" ->
        forall fields,
          Row (lit "1" :: fields) ∉ tail (content (RETRY_OUTPUT fs'))).
Proof.
  apply (reprocessing_merge two_failures (quiet up_for_hello)
           (lit "1", lit "hello") (lit "2", lit "bye")
           (lit "no_translation") (lit "error") (lit "marhba")).
  - reflexivity.
  - reflexivity.
  - vm_compute. reflexivity.
Defined.




End Reprocessor.

(** ** The checkpoint marker *)

Module Checkpoint.

Import Py World Scraper Examples Obs.

Lemma wire_app o1 o2 : wire (o1 ++ o2) = wire o1 ++ wire o2.
Proof. apply filter_app. Qed.

Lemma calls_wire o : calls (wire o) = calls o.
Proof.
  induction o as [|e o IH]; [done|].
  unfold wire. rewrite filter_cons.
  destruct e; simpl; try rewrite <- IH; reflexivity.
Qed.

Section Closure.

Context {A B : Type}.

Lemma respects_ret (a : A) : respects (ret a).
Proof. intros w1 w2 H. done. Qed.

Lemma respects_raise e : respects (@raise World A e).
Proof. intros w1 w2 H. done. Qed.

Lemma respects_bind (m : M World A) (f : A -> M World B) :
  respects m -> (forall a, respects (f a)) -> respects (bind m f).
Proof.
  intros Hm Hf w1 w2 H. destruct (Hm w1 w2 H) as (Hr & Hs & Ho).
  unfold bind.
  destruct (m w1) as [[r1 s1] o1], (m w2) as [[r2 s2] o2]. simpl in *.
  subst r2. destruct r1 as [a|e]; [|done].
  destruct (Hf a s1 s2 Hs) as (Hr' & Hs' & Ho').
  destruct (f a s1) as [[r1' s1'] o1'], (f a s2) as [[r2' s2'] o2'].
  simpl in *. rewrite !wire_app. by rewrite Ho, Ho'.
Qed.

Lemma respects_attempt (m : M World A) : respects m -> respects (attempt m).
Proof.
  intros Hm w1 w2 H. destruct (Hm w1 w2 H) as (Hr & Hs & Ho).
  unfold attempt.
  destruct (m w1) as [[r1 s1] o1], (m w2) as [[r2 s2] o2]. simpl in *.
  by subst.
Qed.

(** What touches the net alone. *)
Lemma respects_lift (m : M Net A) : respects (lift m).
Proof.
  intros w1 w2 [Hf Hn]. unfold lift. rewrite Hn.
  destruct (m (net w2)) as [[r n] o]. done.
Qed.

(** A reading that does not look at the marker. *)
Lemma respects_get_file (f : Files -> A) :
  (forall fs, f (forget_checkpoint fs) = f fs) -> respects (get_file f).
Proof.
  intros Hf w1 w2 [Hfs Hn]. unfold get_file, gets. simpl.
  split; [|done]. rewrite <- (Hf (files w1)), <- (Hf (files w2)).
  by rewrite Hfs.
Qed.

End Closure.

Lemma respects_emit e : respects (@emit World e).
Proof.
  intros w1 w2 H. simpl. done.
Qed.

(** A writing that does not look at the marker. *)
Lemma respects_set_file (g : Files -> Files) :
  (forall fs, forget_checkpoint (g fs) = forget_checkpoint (g (forget_checkpoint fs))) ->
  respects (set_file g).
Proof.
  intros Hg w1 w2 [Hfs Hn]. unfold set_file, modify. simpl.
  split; [done|]. split; [|done]. split; [|done]. simpl.
  rewrite (Hg (files w1)), (Hg (files w2)). by rewrite Hfs.
Qed.

(** The one reading of the marker: its content goes to the console and
    nowhere else. *)
Lemma respects_hint {A} (k : M World A) :
  respects k ->
  respects (let* last := load_checkpoint in
            (match last with
             | Some last_id => print (MsgLastProcessed last_id)
             | None => ret tt
             end) >> k).
Proof.
  intros Hk w1 w2 H. destruct (Hk w1 w2 H) as (Hr & Hs & Ho).
  unfold load_checkpoint. run_m.
  destruct (CHECKPOINT_FILE (files w1)), (CHECKPOINT_FILE (files w2));
    simpl;
    destruct (k w1) as [[r1 s1] o1], (k w2) as [[r2 s2] o2]; simpl in *;
    done.
Qed.

Ltac respects_step :=
  first
    [ apply respects_hint
    | apply respects_bind; [|intros ?]
    | apply respects_ret
    | apply respects_raise
    | apply respects_emit
    | apply respects_lift
    | apply respects_attempt
    | apply respects_get_file; intros []; reflexivity
    | apply respects_set_file; intros []; reflexivity
    | match goal with
      | |- respects (match ?x with _ => _ end) => destruct x
      end ].

Lemma respects_load_processed_ids : respects load_processed_ids.
Proof. unfold load_processed_ids, print. repeat respects_step. Qed.

Lemma respects_read_sentences : respects read_sentences.
Proof. unfold read_sentences. repeat respects_step. Qed.

Lemma respects_pending_sentences : respects pending_sentences.
Proof.
  unfold pending_sentences, print.
  repeat first [ apply respects_load_processed_ids
               | apply respects_read_sentences
               | respects_step ].
Qed.

Lemma respects_scrape_one sid text : respects (scrape_one sid text).
Proof. unfold scrape_one, save_checkpoint. repeat respects_step. Qed.

Lemma respects_scrape_loop sentences sc fc :
  respects (scrape_loop sentences sc fc).
Proof.
  revert sc fc. induction sentences as [|[sid text] rest IH]; intros sc fc.
  - apply respects_ret.
  - simpl. apply respects_bind.
    + apply respects_attempt, respects_scrape_one.
    + intros [[|]|e]; [apply IH|apply IH|apply respects_ret].
Qed.

Lemma respects_main : respects main.
Proof.
  unfold main, open_sinks, report, print.
  repeat first [ apply respects_pending_sentences
               | apply respects_scrape_loop
               | respects_step ].
Qed.

Lemma sim_markers fs n c1 c2 :
  sim (mkWorld (set_CHECKPOINT_FILE c1 fs) n)
      (mkWorld (set_CHECKPOINT_FILE c2 fs) n).
Proof. split; [|done]. by destruct fs. Qed.

Lemma sim_sinks w1 w2 :
  sim w1 w2 ->
  OUTPUT_CSV (files w1) = OUTPUT_CSV (files w2)
  /\ FAILED_CSV (files w1) = FAILED_CSV (files w2)
  /\ OUTPUT_CSV_BACKUP (files w1) = OUTPUT_CSV_BACKUP (files w2)
  /\ RETRY_OUTPUT (files w1) = RETRY_OUTPUT (files w2).
Proof.
  intros [H _]. destruct (files w1), (files w2).
  injection H as -> -> -> -> ->. done.
Qed.

(** C9. Checkpoint noninterference: two runs of the driver that start from
    states that differ only in the checkpoint marker, absent or with any
    content, have the same pending sentences, end the same way, make the
    same requests (and the same sleeps and log lines), and leave the same
    success and failure sinks and the same state of the endpoint. *)
Theorem checkpoint_noninterference fs n c1 c2 :
  let w1 := mkWorld (set_CHECKPOINT_FILE c1 fs) n in
  let w2 := mkWorld (set_CHECKPOINT_FILE c2 fs) n in
  (pending_sentences w1).1.1 = (pending_sentences w2).1.1
  /\ (main w1).1.1 = (main w2).1.1
  /\ calls (main w1).2 = calls (main w2).2
  /\ wire (main w1).2 = wire (main w2).2
  /\ OUTPUT_CSV (files (main w1).1.2) = OUTPUT_CSV (files (main w2).1.2)
  /\ FAILED_CSV (files (main w1).1.2) = FAILED_CSV (files (main w2).1.2)
  /\ net (main w1).1.2 = net (main w2).1.2.
Proof.
  intros w1 w2.
  destruct (respects_pending_sentences w1 w2 (sim_markers fs n c1 c2))
    as (Hp & _ & _).
  destruct (respects_main w1 w2 (sim_markers fs n c1 c2)) as (Hr & Hs & Ho).
  destruct (sim_sinks _ _ Hs) as (H1 & H2 & _).
  repeat split; try done.
  - by rewrite <- (calls_wire (main w1).2), Ho, calls_wire.
  - apply Hs.
Qed.

End Checkpoint.

(** ** The pipeline driver *)

Module Driver.

Import Py World Scraper Examples Obs Strings Input ProgressStore RetryPolicy
  Reprocessor Checkpoint.

(** One sentence, when no interrupt is pending. *)
Lemma scrape_one_quiet sid text fs n :
  sigint n = None ->
  exists t st n' o1 o,
    translate_with_retry text sid n = (Ok (t, st), n', o1)
    /\ sigint n' = None
    /\ scrape_one sid text (mkWorld fs n)
       = (Ok (bool_decide (st = success)),
          mkWorld
            (mkFiles (INPUT_TSV fs)
               (write_rows (omap success_row [((sid, text), (t, st))])
                           (OUTPUT_CSV fs))
               (OUTPUT_CSV_BACKUP fs)
               (write_rows (omap failed_row [((sid, text), (t, st))])
                           (FAILED_CSV fs))
               (RETRY_OUTPUT fs) (Some sid))
            n', o).
Proof.
  intros Hq.
  destruct (translate_with_retry_quiet text sid n Hq)
    as ([t st] & k & o & Hr & _ & _ & Ht).
  exists t, st. eexists _, _, _. split; [exact Hr|]. split; [reflexivity|].
  unfold scrape_one, save_checkpoint. run_m. rewrite Hr. simpl.
  destruct st; simpl; destruct fs; reflexivity.
Qed.

Lemma scrape_loop_quiet sentences fs n sc fc :
  sigint n = None ->
  let outs := outcomes sentences n in
  let srows := omap success_row (zip sentences outs) in
  let frows := omap failed_row (zip sentences outs) in
  exists n' o,
    scrape_loop sentences sc fc (mkWorld fs n)
    = (Ok (sc + List.length srows, fc + List.length frows, None),
       mkWorld
         (mkFiles (INPUT_TSV fs)
            (write_rows srows (OUTPUT_CSV fs))
            (OUTPUT_CSV_BACKUP fs)
            (write_rows frows (FAILED_CSV fs))
            (RETRY_OUTPUT fs)
            (marker_after sentences (CHECKPOINT_FILE fs)))
         n', o)
    /\ sigint n' = None
    /\ List.length outs = List.length sentences.
Proof.
  revert fs n sc fc. induction sentences as [|[sid text] rest IH];
    intros fs n sc fc Hq outs srows frows.
  - exists n, []. simpl. rewrite !Nat.add_0_r. destruct fs. done.
  - destruct (scrape_one_quiet sid text fs n Hq)
      as (t & st & n1 & o1 & o & Hr & Hq1 & Hs).
    subst outs srows frows. simpl. rewrite Hr.
    unfold bind at 1. unfold attempt. rewrite Hs.
    destruct st;
      first [ rewrite bool_decide_eq_true_2 by done
            | rewrite bool_decide_eq_false_2 by done ];
      match goal with
      | |- context [scrape_loop rest ?a ?b (mkWorld ?fs1 n1)] =>
          destruct (IH fs1 n1 a b Hq1) as (n' & o' & Hl & Hq' & Hlen)
      end;
      rewrite Hl; exists n', (o ++ o');
      (split; [|split; [exact Hq'|simpl in *; congruence]]);
      cbn [omap list_omap success_row failed_row zip zip_with List.length
           INPUT_TSV OUTPUT_CSV OUTPUT_CSV_BACKUP FAILED_CSV RETRY_OUTPUT
           CHECKPOINT_FILE];
      rewrite ?Nat.add_0_r, <- ?Nat.add_assoc;
      reflexivity.
Qed.

Lemma pending_sentences_ready fs n lines :
  INPUT_TSV fs = Some lines ->
  sink_ready (OUTPUT_CSV fs) ->
  exists o,
    pending_sentences (mkWorld fs n)
    = (Ok (pending_of (flat_map line_items lines)
                      (list_to_set (data_ids (OUTPUT_CSV fs)))),
       mkWorld fs n, o)
    /\ wire o = [].
Proof.
  intros Hi Hr. unfold pending_sentences, print. run_m.
  rewrite (read_sentences_ok fs n lines Hi).
  rewrite (load_processed_ids_ready fs n Hr).
  unfold pending_of.
  destruct (bool_decide _); simpl; eexists; (split; [reflexivity|done]).
Qed.

(** Nothing is pending: the driver reports it and touches nothing. *)
Lemma main_done fs n lines :
  INPUT_TSV fs = Some lines ->
  sink_ready (OUTPUT_CSV fs) ->
  pending_of (flat_map line_items lines)
             (list_to_set (data_ids (OUTPUT_CSV fs))) = [] ->
  exists o,
    main (mkWorld fs n) = (Ok tt, mkWorld fs n, o) /\ wire o = [].
Proof.
  intros Hi Hr Hp.
  destruct (pending_sentences_ready fs n lines Hi Hr) as (o & Hs & Ho).
  unfold main. unfold bind at 1. rewrite Hs, Hp. unfold print, emit.
  eexists. split; [reflexivity|]. rewrite wire_app, Ho. done.
Qed.

(** No input file: the driver stops on the exception. *)
Lemma main_no_input fs n :
  INPUT_TSV fs = None ->
  exists o,
    main (mkWorld fs n) = (Raise FileNotFoundError, mkWorld fs n, o)
    /\ wire o = [].
Proof.
  intros Hi. unfold main, pending_sentences, read_sentences, print. run_m.
  rewrite Hi. simpl. eexists. split; [reflexivity|done].
Qed.

Lemma open_sinks_eq fs n :
  open_sinks (mkWorld fs n)
  = (Ok tt,
     mkWorld (set_FAILED_CSV (opened FAILED_FIELDS (FAILED_CSV fs))
                (set_OUTPUT_CSV (opened OUTPUT_FIELDS (OUTPUT_CSV fs)) fs)) n,
     []).
Proof.
  unfold open_sinks. run_m. destruct fs as [i [c|] b [f|] r m]; reflexivity.
Qed.

Lemma report_quiet sc fc w :
  exists o,
    report (sc, fc, None) w = (Ok tt, w, o)
    /\ Print (MsgSummary sc fc) ∈ o
    /\ wire o = [].
Proof.
  unfold report, load_checkpoint. run_m.
  destruct (CHECKPOINT_FILE (files w)); simpl;
    (eexists; split; [reflexivity|]; split; [set_solver|done]).
Qed.

(** A whole run, when no interrupt is pending and the success sink can be
    read. *)
Lemma main_quiet fs n lines :
  sigint n = None ->
  INPUT_TSV fs = Some lines ->
  sink_ready (OUTPUT_CSV fs) ->
  let pending := pending_of (flat_map line_items lines)
                            (list_to_set (data_ids (OUTPUT_CSV fs))) in
  pending <> [] ->
  let outs := outcomes pending n in
  let srows := omap success_row (zip pending outs) in
  let frows := omap failed_row (zip pending outs) in
  exists n' o,
    main (mkWorld fs n)
    = (Ok tt,
       mkWorld
         (mkFiles (INPUT_TSV fs)
            (write_rows srows (opened OUTPUT_FIELDS (OUTPUT_CSV fs)))
            (OUTPUT_CSV_BACKUP fs)
            (write_rows frows (opened FAILED_FIELDS (FAILED_CSV fs)))
            (RETRY_OUTPUT fs)
            (marker_after pending (CHECKPOINT_FILE fs)))
         n', o)
    /\ Print (MsgSummary (List.length srows) (List.length frows)) ∈ o
    /\ List.length outs = List.length pending
    /\ sigint n' = None.
Proof.
  intros Hq Hi Hr pending Hne outs srows frows.
  destruct (pending_sentences_ready fs n lines Hi Hr) as (o & Hs & Ho).
  unfold main. unfold bind at 1. rewrite Hs. fold pending.
  destruct pending as [|s0 pending'] eqn:Ep; [done|].
  unfold bind. rewrite (open_sinks_eq fs n). unfold print, emit.
  destruct (scrape_loop_quiet (s0 :: pending')
              (set_FAILED_CSV (opened FAILED_FIELDS (FAILED_CSV fs))
                 (set_OUTPUT_CSV (opened OUTPUT_FIELDS (OUTPUT_CSV fs)) fs))
              n 0 0 Hq) as (n' & o' & Hl & Hq' & Hlen).
  rewrite Hl.
  match goal with
  | |- context [report (?a, ?b, None) ?w] =>
      destruct (report_quiet a b w) as (o2 & Hrep & Hin & Hw)
  end.
  rewrite Hrep. eexists _, _. split; [reflexivity|].
  split; [|split; [exact Hlen|exact Hq']].
  repeat (apply elem_of_app; right). exact Hin.
Qed.

(** A sentence of the input is pending or has its id among the done. *)
Lemma pending_or_done (sentences : list (str * str)) (processed : gset str) s :
  s ∈ sentences ->
  s ∈ pending_of sentences processed \/ s.1 ∈ processed.
Proof.
  intros Hin. unfold pending_of. case_bool_decide; [|by left].
  destruct (decide (s.1 ∈ processed)); [by right|].
  left. apply list_elem_of_filter. done.
Qed.

Lemma pending_of_all_done (sentences : list (str * str)) (processed : gset str) :
  (forall s, s ∈ sentences -> s.1 ∈ processed) ->
  pending_of sentences processed = [].
Proof.
  intros H. unfold pending_of. case_bool_decide as Hp.
  - induction sentences as [|s rest IH]; [done|].
    rewrite filter_cons_False by (intros Hn; apply Hn, H; set_solver).
    apply IH. intros s' Hs'. apply H. set_solver.
  - destruct sentences as [|s rest]; [done|].
    exfalso. specialize (H s). set_solver.
Qed.

(** When no sentence of a run went to the failure sink, each has its row,
    and so its id, in the success sink. *)
Lemma all_succeeded (sentences : list (str * str)) outs s :
  List.length outs = List.length sentences ->
  omap failed_row (zip sentences outs) = [] ->
  s ∈ sentences ->
  s.1 <> [] ->
  (s.1 ∈ omap row_id (Row <$> omap success_row (zip sentences outs))).
Proof.
  revert outs. induction sentences as [|[sid text] rest IH];
    intros outs Hlen Hf Hin Hne; [set_solver|].
  destruct outs as [|[t st] outs]; [done|].
  simpl in Hlen. injection Hlen as Hlen.
  destruct st; simpl in Hf; try discriminate.
  simpl. apply elem_of_cons in Hin as [->|Hin].
  - simpl in *. destruct sid; [done|]. simpl. set_solver.
  - specialize (IH outs Hlen Hf Hin Hne).
    destruct (truthy sid); set_solver.
Qed.

Lemma sink_ready_opened f :
  sink_ready f ->
  exists rows,
    opened OUTPUT_FIELDS f = Some (Row OUTPUT_FIELDS :: rows)
    /\ (Garbled ∉ rows)
    /\ data_ids f = omap row_id rows.
Proof.
  intros [->|(rows & -> & Hg)].
  - exists []. split; [done|]. split; [set_solver|done].
  - exists rows. done.
Qed.

Lemma items_have_ids lines s :
  s ∈ flat_map line_items lines -> s.1 <> [].
Proof.
  intros Hin. apply list_elem_of_In, in_flat_map in Hin as (line & _ & Hin).
  destruct s as [i text]. apply list_elem_of_In in Hin.
  by apply line_items_id in Hin.
Qed.

Lemma resume_after_no_change w o r :
  main w = (r, w, o) -> wire o = [] -> resume_is_idempotent w.
Proof.
  intros Hm Ho. unfold resume_is_idempotent. rewrite Hm. simpl. rewrite Hm.
  split; [|done]. by rewrite <- calls_wire, Ho.
Qed.

(** C1. Idempotent resume, as the code has it: the first run is not
    interrupted, starts with the success sink absent or readable under
    its header, its summary reports no failed sentence, and it leaves a
    success sink that is read back as it was written, no field of it
    being longer than the field size limit of the reader or holding a
    carriage return. Then a second run on the same input and the same
    files makes no request and leaves the success sink, the failure sink
    and the retry-results sink as they are. *)
Theorem idempotent_resume w :
  sigint (net w) = None ->
  sink_ready (OUTPUT_CSV (files w)) ->
  (forall sc fc, Print (MsgSummary sc fc) ∈ (main w).2 -> fc = 0) ->
  reads_back (OUTPUT_CSV (files (main w).1.2)) ->
  resume_is_idempotent w.
Proof.
  destruct w as [fs n]. simpl. intros Hq Hr Hsum _.
  destruct (INPUT_TSV fs) as [lines|] eqn:Hi.
  2: { destruct (main_no_input fs n Hi) as (o & Hm & Ho).
       by eapply resume_after_no_change. }
  remember (flat_map line_items lines) as S eqn:ES.
  remember (pending_of S (list_to_set (data_ids (OUTPUT_CSV fs))))
    as pending eqn:Ep.
  destruct (decide (pending = [])) as [He|Hne].
  { destruct (main_done fs n lines Hi Hr) as (o & Hm & Ho).
    { by rewrite <- ES, <- Ep. }
    by eapply resume_after_no_change. }
  destruct (main_quiet fs n lines Hq Hi Hr) as (n' & o & Hm & Hin & Hlen & Hq').
  { by rewrite <- ES, <- Ep. }
  rewrite <- ES, <- Ep in Hm, Hin, Hlen.
  rewrite Hm in Hsum. apply Hsum in Hin.
  apply length_zero_iff_nil in Hin.
  destruct (sink_ready_opened _ Hr) as (rows & Hop & Hg & Hids).
  rewrite Hin, Hop in Hm. rewrite write_rows_some in Hm.
  unfold resume_is_idempotent. rewrite Hm. simpl.
  match goal with
  | |- context [main (mkWorld ?fs1 n')] =>
      destruct (main_done fs1 n' lines Hi) as (o2 & Hm2 & Ho2)
  end.
  - right. eexists. split; [reflexivity|].
    intros Hel. apply elem_of_app in Hel as [Hel|Hel]; [done|].
    apply list_elem_of_fmap in Hel as (x & Hx & _). discriminate.
  - apply pending_of_all_done. rewrite <- ES. intros s Hs.
    simpl. rewrite omap_app, list_to_set_app, elem_of_union.
    destruct (pending_or_done S (list_to_set (data_ids (OUTPUT_CSV fs))) s Hs)
      as [Hp|Hd].
    + right. apply elem_of_list_to_set. rewrite <- Ep in Hp.
      apply all_succeeded; try done. apply (items_have_ids lines).
      by rewrite <- ES.
    + left. by rewrite <- Hids.
  - rewrite Hm2. split; [|done]. by rewrite <- calls_wire, Ho2.
Qed.

Lemma idempotent_resume_witness :
  resume_is_idempotent (mkWorld (fresh two_lines) (quiet always_up)).
Proof.
  apply (idempotent_resume (mkWorld (fresh two_lines) (quiet always_up))).
  - reflexivity.
  - left. reflexivity.
  - intros sc fc H. vm_compute in H.
    repeat (apply elem_of_cons in H as [H|H]; [try discriminate|]).
    + injection H as _ ->. reflexivity.
    + inversion H.
  - unfold reads_back. vm_compute content. repeat constructor.
Defined.

(** C1, as stated, fails: the one sentence of the input ends in [error] at
    the first run, and the second run on the same input and files sends
    its three requests again and adds a second row to the failure sink. *)
Lemma resume_repeats_failed_items :
  let w := mkWorld (fresh [lit "1" ++ TAB :: lit "eng" ++ TAB :: line "hello"])
                   (quiet always_down) in
  let w1 := (main w).1.2 in
  calls (main w1).2 = [lit "hello"; lit "hello"; lit "hello"]
  /\ List.length (content (FAILED_CSV (files w1))) = 2
  /\ List.length (content (FAILED_CSV (files (main w1).1.2))) = 3
  /\ ~ resume_is_idempotent w.
Proof.
  split; [vm_compute; reflexivity|].
  split; [vm_compute; reflexivity|].
  split; [vm_compute; reflexivity|].
  unfold resume_is_idempotent. vm_compute. intros [H _]. discriminate.
Qed.

(** Without a readable sink at the start the resume is not idempotent even
    when no sentence failed: the ids read before the exception make the
    first run find nothing pending, the sink is renamed aside, and the
    second run requests the sentence again. *)
Lemma resume_after_torn_sink :
  let w := mkWorld (set_OUTPUT_CSV (Some torn_sink) (fresh one_line))
                   (quiet always_up) in
  calls (main w).2 = []
  /\ calls (main (main w).1.2).2 = [lit "hello"]
  /\ ~ resume_is_idempotent w.
Proof.
  split; [vm_compute; reflexivity|].
  split; [vm_compute; reflexivity|].
  unfold resume_is_idempotent. vm_compute. intros [H _]. discriminate.
Qed.

(** *** The ids of the success sink *)










(** C2. No duplicate success ids. The one sentence of the input fails at
    the run of the driver and goes to the failure sink; the re-processor,
    run twice while the endpoint answers, translates it at each pass, since
    the failure sink still holds it, and appends its row to the success
    sink each time: the success sink ends with the id 1 in two rows. *)
Theorem retry_twice_duplicates_id :
  let w0 := mkWorld (fresh one_line) (quiet down_then_up) in
  let w1 := (main w0).1.2 in
  let w2 := (RetryFailed.main w1).1.2 in
  let w3 := (RetryFailed.main w2).1.2 in
  data_ids (FAILED_CSV (files w1)) = [lit "1"]
  /\ data_ids (OUTPUT_CSV (files w2)) = [lit "1"]
  /\ unique_ids (OUTPUT_CSV (files w2))
  /\ data_ids (OUTPUT_CSV (files w3)) = [lit "1"; lit "1"]
  /\ ~ unique_ids (OUTPUT_CSV (files w3)).
Proof.
  assert (data_ids (OUTPUT_CSV (files (RetryFailed.main (RetryFailed.main
            (main (mkWorld (fresh one_line) (quiet down_then_up))).1.2).1.2).1.2))
          = [lit "1"; lit "1"]) as H3 by (vm_compute; reflexivity).
  assert (data_ids (OUTPUT_CSV (files (RetryFailed.main
            (main (mkWorld (fresh one_line) (quiet down_then_up))).1.2).1.2))
          = [lit "1"]) as H2 by (vm_compute; reflexivity).
  simpl. split; [vm_compute; reflexivity|]. split; [exact H2|].
  unfold unique_ids. rewrite H2, H3.
  split; [apply NoDup_singleton|]. split; [reflexivity|].
  intros Hn. apply NoDup_cons in Hn as [Hn _]. apply Hn. set_solver.
Qed.

End Driver.

(** ** The splitting utility *)

Module Splitting.

Import Py World Obs Strings Input.
Import SplitTsv.

Lemma startswith_app s p : startswith (p ++ s) p = true.
Proof.
  induction p as [|c p IH]; simpl; [by destruct s|]. by rewrite N.eqb_refl.
Qed.

Lemma startswith_split s p :
  startswith s p = true -> exists r, s = p ++ r.
Proof.
  revert s. induction p as [|c p IH]; intros s; [by exists s|].
  destruct s as [|d s]; [discriminate|]. simpl.
  intros [Hc Hp]%andb_prop. apply N.eqb_eq in Hc as ->.
  destruct (IH s Hp) as [r ->]. by exists r.
Qed.

(** The loop before the id is found, and from the line where it is. *)
Lemma loop_before start_id skipped lc pr :
  Forall (fun l => startswith l (start_id ++ [TAB]) = false) skipped ->
  foldl (step start_id) (mkLoop false lc 0 [] pr) skipped
  = mkLoop false (lc + List.length skipped) 0 [] pr.
Proof.
  intros H. revert lc. induction H as [|l ls Hl _ IH]; intros lc; simpl.
  - by rewrite Nat.add_0_r.
  - unfold step at 2. simpl. rewrite Hl. rewrite IH. f_equal. lia.
Qed.

Lemma loop_after start_id rest lc wc out pr :
  foldl (step start_id) (mkLoop true lc wc out pr) rest
  = mkLoop true (lc + List.length rest) (wc + List.length rest)
           (out ++ rest) pr.
Proof.
  revert lc wc out. induction rest as [|l ls IH]; intros lc wc out; simpl.
  - by rewrite !Nat.add_0_r, app_nil_r.
  - unfold step at 2. simpl. rewrite IH. rewrite <- app_assoc. f_equal; lia.
Qed.

Lemma step_found start_id line lc wc out pr :
  startswith line (start_id ++ [TAB]) = true ->
  step start_id (mkLoop false lc wc out pr) line
  = mkLoop true (lc + 1) (wc + 1) (out ++ [line])
           (pr ++ [MsgFoundStart (lc + 1)]).
Proof. intros H. unfold step. cbn. rewrite H. reflexivity. Qed.

(** Every file has a first line that starts with the id and a tab, or has
    none. *)
Lemma first_start start_id lines :
  Forall (fun l => startswith l (start_id ++ [TAB]) = false) lines
  \/ exists skipped first rest,
       lines = skipped ++ first :: rest
       /\ Forall (fun l => startswith l (start_id ++ [TAB]) = false) skipped
       /\ startswith first (start_id ++ [TAB]) = true.
Proof.
  induction lines as [|l ls IH]; [by left|].
  destruct (startswith l (start_id ++ [TAB])) eqn:E.
  - right. exists [], l, ls. done.
  - destruct IH as [IH|(sk & f & r & -> & Hs & Hf)].
    + left. by constructor.
    + right. exists (l :: sk), f, r. split; [done|]. split; [|done].
      by constructor.
Qed.

(** The whole run when some line starts with the id and a tab. *)
Lemma split_found start_id fs skipped first rest :
  INPUT_TSV fs = Some (skipped ++ first :: rest) ->
  Forall (fun l => startswith l (start_id ++ [TAB]) = false) skipped ->
  startswith first (start_id ++ [TAB]) = true ->
  split_tsv_from_id start_id fs
  = (Ok tt,
     mkFiles (Some (skipped ++ first :: rest)) (Some (first :: rest)),
     [MsgReadingFrom; MsgStartingFrom start_id;
      MsgFoundStart (List.length skipped + 1);
      MsgSummary (List.length (skipped ++ first :: rest))
                 (List.length (first :: rest))]).
Proof.
  intros Hi Hs Hf. unfold split_tsv_from_id. rewrite Hi.
  rewrite foldl_app, loop_before by done. cbn [foldl].
  rewrite step_found by done. rewrite loop_after. cbn.
  rewrite length_app. cbn. rewrite <- Nat.add_assoc. reflexivity.
Qed.

(** The whole run when no line starts with the id and a tab. *)
Lemma split_absent start_id fs lines :
  INPUT_TSV fs = Some lines ->
  Forall (fun l => startswith l (start_id ++ [TAB]) = false) lines ->
  split_tsv_from_id start_id fs
  = (Ok tt, mkFiles (Some lines) None,
     [MsgReadingFrom; MsgStartingFrom start_id; MsgNotFound start_id]).
Proof.
  intros Hi Hs. unfold split_tsv_from_id. rewrite Hi.
  rewrite loop_before by done. reflexivity.
Qed.

(** X1. The id is found: the output holds the lines from the first one that
    starts with the id and a tab to the end of the input, the input is as
    it was, and the counts reported are those of the input and of the
    output. *)
Theorem split_from_first_start start_id fs skipped first rest :
  INPUT_TSV fs = Some (skipped ++ first :: rest) ->
  Forall (fun l => startswith l (start_id ++ [TAB]) = false) skipped ->
  startswith first (start_id ++ [TAB]) = true ->
  split_tsv_from_id start_id fs
  = (Ok tt,
     mkFiles (Some (skipped ++ first :: rest)) (Some (first :: rest)),
     [MsgReadingFrom; MsgStartingFrom start_id;
      MsgFoundStart (List.length skipped + 1);
      MsgSummary (List.length (skipped ++ first :: rest))
                 (List.length (first :: rest))]).
Proof. apply split_found. Qed.

Lemma split_from_first_start_witness :
  split_tsv_from_id (lit "2")
    (mkFiles (Some [lit "1" ++ TAB :: lit "a"; lit "2" ++ TAB :: lit "b";
                    lit "3" ++ TAB :: lit "c"]) None)
  = (Ok tt,
     mkFiles (Some [lit "1" ++ TAB :: lit "a"; lit "2" ++ TAB :: lit "b";
                    lit "3" ++ TAB :: lit "c"])
             (Some [lit "2" ++ TAB :: lit "b"; lit "3" ++ TAB :: lit "c"]),
     [MsgReadingFrom; MsgStartingFrom (lit "2"); MsgFoundStart 2;
      MsgSummary 3 2]).
Proof.
  apply (split_from_first_start (lit "2")
           (mkFiles (Some [lit "1" ++ TAB :: lit "a"; lit "2" ++ TAB :: lit "b";
                           lit "3" ++ TAB :: lit "c"]) None)
           [lit "1" ++ TAB :: lit "a"] (lit "2" ++ TAB :: lit "b")
           [lit "3" ++ TAB :: lit "c"]).
  - reflexivity.
  - repeat constructor.
  - reflexivity.
Defined.

(** X2. The id is not found: the output file is removed, even when one was
    there before the run, and the input is as it was. *)
Theorem split_not_found start_id fs lines :
  INPUT_TSV fs = Some lines ->
  Forall (fun l => startswith l (start_id ++ [TAB]) = false) lines ->
  split_tsv_from_id start_id fs
  = (Ok tt, mkFiles (Some lines) None,
     [MsgReadingFrom; MsgStartingFrom start_id; MsgNotFound start_id]).
Proof. apply split_absent. Qed.

Lemma split_not_found_witness :
  split_tsv_from_id (lit "1015")
    (mkFiles (Some [lit "10159624" ++ TAB :: lit "a"]) (Some [lit "old"]))
  = (Ok tt, mkFiles (Some [lit "10159624" ++ TAB :: lit "a"]) None,
     [MsgReadingFrom; MsgStartingFrom (lit "1015"); MsgNotFound (lit "1015")]).
Proof.
  apply (split_not_found (lit "1015")
           (mkFiles (Some [lit "10159624" ++ TAB :: lit "a"]) (Some [lit "old"]))).
  - reflexivity.
  - repeat constructor.
Defined.

(** X3. The line where the split starts is the first one whose first field is
    the id itself: an id that is only the beginning of the first field
    does not start it. *)
Theorem start_is_whole_id start_id line :
  TAB ∉ start_id ->
  startswith line (start_id ++ [TAB]) = true
  <-> exists fields, split TAB line = start_id :: fields /\ fields <> [].
Proof.
  intros Ht. split.
  - intros [r ->]%startswith_split. rewrite <- app_assoc. simpl.
    rewrite split_app by done. exists (split TAB r). split; [done|].
    apply split_not_nil.
  - intros (fields & Hs & Hne). apply split_cons in Hs as [_ Hs].
    destruct fields as [|f fields]; [done|].
    destruct Hs as (r & -> & _).
    replace (start_id ++ TAB :: r) with ((start_id ++ [TAB]) ++ r)
      by (by rewrite <- app_assoc).
    apply startswith_app.
Qed.

Lemma start_is_whole_id_witness :
  startswith (lit "10159624" ++ TAB :: lit "eng") (lit "1015" ++ [TAB]) = true
  <-> exists fields,
        split TAB (lit "10159624" ++ TAB :: lit "eng") = lit "1015" :: fields
        /\ fields <> [].
Proof.
  apply (start_is_whole_id (lit "1015") (lit "10159624" ++ TAB :: lit "eng")).
  apply (bool_decide_unpack _). vm_compute. exact I.
Defined.

(** X4. Splitting the output again from the same id gives the same output. *)
Theorem split_again start_id fs lines out old :
  INPUT_TSV fs = Some lines ->
  OUTPUT_TSV (split_tsv_from_id start_id fs).1.2 = Some out ->
  OUTPUT_TSV (split_tsv_from_id start_id (mkFiles (Some out) old)).1.2
  = Some out.
Proof.
  intros Hi Ho.
  destruct (first_start start_id lines) as [Hn|(sk & f & r & -> & Hs & Hf)].
  - rewrite (split_absent start_id fs lines Hi Hn) in Ho. discriminate.
  - rewrite (split_found start_id fs sk f r Hi Hs Hf) in Ho.
    injection Ho as <-.
    rewrite (split_found start_id (mkFiles (Some (f :: r)) old)
               [] f r eq_refl); [done|constructor|done].
Qed.

Lemma split_again_witness :
  OUTPUT_TSV
    (split_tsv_from_id (lit "2")
       (mkFiles (Some [lit "2" ++ TAB :: lit "b"; lit "3" ++ TAB :: lit "c"])
                None)).1.2
  = Some [lit "2" ++ TAB :: lit "b"; lit "3" ++ TAB :: lit "c"].
Proof.
  apply (split_again (lit "2")
           (mkFiles (Some [lit "1" ++ TAB :: lit "a"; lit "2" ++ TAB :: lit "b";
                           lit "3" ++ TAB :: lit "c"]) None)
           [lit "1" ++ TAB :: lit "a"; lit "2" ++ TAB :: lit "b";
            lit "3" ++ TAB :: lit "c"]).
  - reflexivity.
  - reflexivity.
Defined.

(** X5. The sentences that the scraper reads from the output are the last
    sentences that it reads from the input, in the same order. *)
Theorem split_sentences_suffix start_id fs lines out :
  INPUT_TSV fs = Some lines ->
  OUTPUT_TSV (split_tsv_from_id start_id fs).1.2 = Some out ->
  out `suffix_of` lines
  /\ flat_map line_items out `suffix_of` flat_map line_items lines.
Proof.
  intros Hi Ho.
  destruct (first_start start_id lines) as [Hn|(sk & f & r & -> & Hs & Hf)].
  - rewrite (split_absent start_id fs lines Hi Hn) in Ho. discriminate.
  - rewrite (split_found start_id fs sk f r Hi Hs Hf) in Ho.
    injection Ho as <-. split; [by exists sk|].
    exists (flat_map line_items sk). apply flat_map_app.
Qed.

Lemma split_sentences_suffix_witness :
  [lit "2" ++ TAB :: lit "eng" ++ TAB :: lit "b"]
    `suffix_of` [lit "1" ++ TAB :: lit "eng" ++ TAB :: lit "a";
                 lit "2" ++ TAB :: lit "eng" ++ TAB :: lit "b"]
  /\ flat_map line_items [lit "2" ++ TAB :: lit "eng" ++ TAB :: lit "b"]
       `suffix_of`
       flat_map line_items [lit "1" ++ TAB :: lit "eng" ++ TAB :: lit "a";
                            lit "2" ++ TAB :: lit "eng" ++ TAB :: lit "b"].
Proof.
  apply (split_sentences_suffix (lit "2")
           (mkFiles (Some [lit "1" ++ TAB :: lit "eng" ++ TAB :: lit "a";
                           lit "2" ++ TAB :: lit "eng" ++ TAB :: lit "b"]) None)).
  - reflexivity.
  - reflexivity.
Defined.

End Splitting.

(** ** Laws of the retry policy *)

Module PolicyLaws.

Import Py World Scraper Examples Obs Views RetryPolicy.

Lemma timeline_app o1 o2 : timeline (o1 ++ o2) = timeline o1 ++ timeline o2.
Proof. apply filter_app. Qed.

(** Destructs the answer to the next request of the goal. *)
Ltac next_answer rem text :=
  match goal with
  | |- context [rem ?k text] =>
      let body := fresh "body" in
      let cause := fresh "cause" in
      destruct (rem k text) as [body|cause] eqn:?; simpl;
      [ destruct (extract_fs3_paragraph body) as [[|? ?]|] eqn:?; simpl | ]
  end.

(** The requests and sleeps of the policy, when no interrupt is pending:
    at most two failed requests, each followed by a sleep, and a last
    request. *)
Lemma translate_with_retry_timeline text sid n :
  sigint n = None ->
  exists j,
    j < MAX_RETRIES
    /\ timeline (translate_with_retry text sid n).2 = rounds j text ++ [Call text]
    /\ sigint (translate_with_retry text sid n).1.2 = None.
Proof.
  intros Hq. destruct n as [rem k sg]; simpl in *; subst sg.
  unfold translate_with_retry. simpl seq. unfold attempts_loop, attempt_body.
  run_m.
  next_answer rem text; try (exists 0; split; [unfold MAX_RETRIES; lia|done]).
  next_answer rem text; try (exists 1; split; [unfold MAX_RETRIES; lia|done]).
  next_answer rem text; exists 2; (split; [unfold MAX_RETRIES; lia|done]).
Qed.

(** X6. The policy retries after a failure of the transport only, sleeping
    before each retry, and stops at the first answer: after [j] failed
    requests and an answer, the outcome is the extraction from that answer,
    [success] with the paragraph or [no_translation] without one, after
    [j + 1] requests and [j] sleeps of the retry delay. *)
Theorem retry_until_answer text sid n j html :
  sigint n = None ->
  j < MAX_RETRIES ->
  (forall k, k < j ->
     exists cause, remote n (ncalls n + k) text = NetworkError cause) ->
  remote n (ncalls n + j) text = Html html ->
  exists n' o,
    translate_with_retry text sid n
    = (Ok (extract_fs3_paragraph html,
           status_of (extract_fs3_paragraph html)),
       n', o)
    /\ ncalls n' = ncalls n + j + 1
    /\ timeline o = rounds j text ++ [Call text].
Proof.
  intros Hq Hj Hdown Hup. destruct n as [rem k sg]; simpl in *; subst sg.
  assert (forall i, i < j -> exists cause, rem (i + k) text = NetworkError cause)
    as Hd by (intros i Hi; rewrite Nat.add_comm; by apply Hdown).
  rewrite (Nat.add_comm k j) in Hup.
  unfold translate_with_retry. simpl seq. unfold attempts_loop, attempt_body.
  run_m.
  destruct (extract_fs3_paragraph html) as [t|] eqn:He.
  - pose proof (extract_not_empty _ _ He) as Hne.
    destruct t as [|c t]; [done|].
    destruct j as [|[|[|j]]]; [| | |unfold MAX_RETRIES in Hj; lia].
    + simpl in Hup. rewrite Hup. simpl. rewrite He. simpl.
      eexists _, _. split; [reflexivity|]. split; [simpl; lia|done].
    + destruct (Hd 0) as [c0 H0]; [lia|]. simpl in H0, Hup.
      rewrite H0. simpl. rewrite Hup. simpl. rewrite He. simpl.
      eexists _, _. split; [reflexivity|]. split; [simpl; lia|done].
    + destruct (Hd 0) as [c0 H0]; [lia|]. destruct (Hd 1) as [c1 H1]; [lia|].
      simpl in H0, H1, Hup.
      rewrite H0. simpl. rewrite H1. simpl. rewrite Hup. simpl. rewrite He.
      simpl. eexists _, _. split; [reflexivity|]. split; [simpl; lia|done].
  - destruct j as [|[|[|j]]]; [| | |unfold MAX_RETRIES in Hj; lia].
    + simpl in Hup. rewrite Hup. simpl. rewrite He. simpl.
      eexists _, _. split; [reflexivity|]. split; [simpl; lia|done].
    + destruct (Hd 0) as [c0 H0]; [lia|]. simpl in H0, Hup.
      rewrite H0. simpl. rewrite Hup. simpl. rewrite He. simpl.
      eexists _, _. split; [reflexivity|]. split; [simpl; lia|done].
    + destruct (Hd 0) as [c0 H0]; [lia|]. destruct (Hd 1) as [c1 H1]; [lia|].
      simpl in H0, H1, Hup.
      rewrite H0. simpl. rewrite H1. simpl. rewrite Hup. simpl. rewrite He.
      simpl. eexists _, _. split; [reflexivity|]. split; [simpl; lia|done].
Qed.

Lemma retry_until_answer_witness :
  exists n' o,
    translate_with_retry (lit "hi") (lit "1") (quiet down_twice)
    = (Ok (extract_fs3_paragraph (page "marhba"),
           status_of (extract_fs3_paragraph (page "marhba"))),
       n', o)
    /\ ncalls n' = 0 + 2 + 1
    /\ timeline o = rounds 2 (lit "hi") ++ [Call (lit "hi")].
Proof.
  apply (retry_until_answer (lit "hi") (lit "1") (quiet down_twice) 2
           (page "marhba")).
  - reflexivity.
  - unfold MAX_RETRIES. lia.
  - intros k Hk. exists (lit "down"). simpl.
    destruct k as [|[|k]]; [reflexivity|reflexivity|lia].
  - reflexivity.
Defined.

End PolicyLaws.

(** ** The pace of the requests *)

Module Pacing.

Import Py World Scraper Examples Obs Views RetryPolicy PolicyLaws.

Lemma paced_app a b : paced a -> paced b -> paced (a ++ b).
Proof. induction 1; intros Hb; simpl; [done|]. constructor; auto. Qed.

Lemma paced_rounds j text :
  paced (rounds j text ++ [Call text; Sleep REQUEST_DELAY]).
Proof.
  induction j as [|j IH]; simpl.
  - constructor; [apply Qle_refl|constructor].
  - constructor; [apply Qle_refl|exact IH].
Qed.

Lemma calls_timeline o : calls (timeline o) = calls o.
Proof.
  induction o as [|e o IH]; [done|].
  unfold timeline. rewrite filter_cons.
  destruct e; simpl; try rewrite <- IH; reflexivity.
Qed.

Lemma sleeps_timeline o : sleeps (timeline o) = sleeps o.
Proof.
  induction o as [|e o IH]; [done|].
  unfold timeline. rewrite filter_cons.
  destruct e; simpl; try rewrite <- IH; reflexivity.
Qed.

(** As many sleeps as requests. *)
Lemma paced_counts o :
  paced (timeline o) -> List.length (sleeps o) = List.length (calls o).
Proof.
  rewrite <- (calls_timeline o), <- (sleeps_timeline o).
  induction 1; simpl; [done|]. by f_equal.
Qed.

Section Closure.

Context {A B : Type}.

Lemma keeps_pace_ret (a : A) : keeps_pace (ret a).
Proof. intros w Hq. split; [apply paced_nil|done]. Qed.

Lemma keeps_pace_raise e : keeps_pace (@raise World A e).
Proof. intros w Hq. split; [apply paced_nil|done]. Qed.

Lemma keeps_pace_bind (m : M World A) (f : A -> M World B) :
  keeps_pace m -> (forall a, keeps_pace (f a)) -> keeps_pace (bind m f).
Proof.
  intros Hm Hf w Hq. destruct (Hm w Hq) as [Hp Hq1]. unfold bind.
  destruct (m w) as [[[a|e] w1] o1]; cbn [fst snd] in *; [|done].
  destruct (Hf a w1 Hq1) as [Hp2 Hq2].
  destruct (f a w1) as [[r2 w2] o2]. cbn [fst snd] in *.
  split; [|done]. rewrite timeline_app. by apply paced_app.
Qed.

Lemma keeps_pace_attempt (m : M World A) : keeps_pace m -> keeps_pace (attempt m).
Proof.
  intros Hm w Hq. destruct (Hm w Hq) as [Hp Hq1]. unfold attempt.
  destruct (m w) as [[r w1] o1]. done.
Qed.

Lemma keeps_pace_get_file (f : Files -> A) : keeps_pace (get_file f).
Proof. intros w Hq. split; [apply paced_nil|done]. Qed.

End Closure.

Lemma keeps_pace_set_file g : keeps_pace (set_file g).
Proof. intros w Hq. split; [apply paced_nil|done]. Qed.

Lemma keeps_pace_print m : keeps_pace (@print World m).
Proof. intros w Hq. split; [apply paced_nil|done]. Qed.

Ltac pace_step :=
  first
    [ apply keeps_pace_bind; [|intros ?]
    | apply keeps_pace_ret
    | apply keeps_pace_raise
    | apply keeps_pace_print
    | apply keeps_pace_attempt
    | apply keeps_pace_get_file
    | apply keeps_pace_set_file
    | match goal with
      | |- keeps_pace (match ?x with _ => _ end) => destruct x
      end ].

Lemma timeline_print m o : timeline (Print m :: o) = timeline o.
Proof. reflexivity. Qed.

(** One sentence of the driver: the requests and sleeps of the policy,
    then the sleep between sentences. *)
Lemma scrape_one_timeline sid text fs n :
  sigint n = None ->
  timeline (scrape_one sid text (mkWorld fs n)).2
  = timeline (translate_with_retry text sid n).2 ++ [Sleep REQUEST_DELAY]
  /\ sigint (net (scrape_one sid text (mkWorld fs n)).1.2) = None.
Proof.
  intros Hq.
  destruct (translate_with_retry_quiet text sid n Hq)
    as ([t st] & k & o & Hr & _).
  unfold scrape_one, save_checkpoint. run_m. rewrite Hr. simpl.
  destruct st; simpl; rewrite !timeline_app; simpl;
    rewrite ?app_nil_r; done.
Qed.

Lemma retry_one_timeline sid text fs n :
  sigint n = None ->
  timeline (RetryFailed.retry_one sid text (mkWorld fs n)).2
  = timeline (translate_with_retry text sid n).2 ++ [Sleep REQUEST_DELAY]
  /\ sigint (net (RetryFailed.retry_one sid text (mkWorld fs n)).1.2) = None.
Proof.
  intros Hq.
  destruct (translate_with_retry_quiet text sid n Hq)
    as ([t st] & k & o & Hr & _).
  unfold RetryFailed.retry_one. run_m. rewrite Hr. simpl.
  destruct st; simpl; rewrite timeline_print, !timeline_app; done.
Qed.

Lemma paced_policy text sid n :
  sigint n = None ->
  paced (timeline (translate_with_retry text sid n).2 ++ [Sleep REQUEST_DELAY]).
Proof.
  intros Hq.
  destruct (translate_with_retry_timeline text sid n Hq) as (j & _ & -> & _).
  rewrite <- app_assoc. apply paced_rounds.
Qed.

Lemma keeps_pace_scrape_one sid text : keeps_pace (scrape_one sid text).
Proof.
  intros [fs n] Hq. simpl in Hq.
  destruct (scrape_one_timeline sid text fs n Hq) as [-> Hq1].
  split; [by apply paced_policy|done].
Qed.

Lemma keeps_pace_retry_one sid text : keeps_pace (RetryFailed.retry_one sid text).
Proof.
  intros [fs n] Hq. simpl in Hq.
  destruct (retry_one_timeline sid text fs n Hq) as [-> Hq1].
  split; [by apply paced_policy|done].
Qed.

Lemma keeps_pace_scrape_loop sentences sc fc :
  keeps_pace (scrape_loop sentences sc fc).
Proof.
  revert sc fc. induction sentences as [|[sid text] rest IH]; intros sc fc.
  - apply keeps_pace_ret.
  - simpl. apply keeps_pace_bind.
    + apply keeps_pace_attempt, keeps_pace_scrape_one.
    + intros [[|]|e]; [apply IH|apply IH|apply keeps_pace_ret].
Qed.

Lemma keeps_pace_retry_loop failed sc sf :
  keeps_pace (RetryFailed.retry_loop failed sc sf).
Proof.
  revert sc sf. induction failed as [|[sid text] rest IH]; intros sc sf.
  - apply keeps_pace_ret.
  - simpl. apply keeps_pace_bind.
    + apply keeps_pace_attempt, keeps_pace_retry_one.
    + intros [[|]|e]; [apply IH|apply IH|apply keeps_pace_ret].
Qed.

Lemma keeps_pace_main : keeps_pace main.
Proof.
  unfold main, pending_sentences, read_sentences, load_processed_ids,
    open_sinks, report, load_checkpoint.
  repeat first [ apply keeps_pace_scrape_loop | pace_step ].
Qed.

Lemma keeps_pace_retry_main : keeps_pace RetryFailed.main.
Proof.
  unfold RetryFailed.main.
  repeat first [ apply keeps_pace_retry_loop | pace_step ].
Qed.

(** X7. The rate limit of the driver: in a run that is not interrupted, every
    request, a retry or not and whatever its answer, is followed by a
    sleep of at least [REQUEST_DELAY] before the next request or the end
    of the run; the run sleeps as many times as it makes requests. *)
Theorem driver_paced w :
  sigint (net w) = None ->
  paced (timeline (main w).2)
  /\ List.length (sleeps (main w).2) = List.length (calls (main w).2).
Proof.
  intros Hq. destruct (keeps_pace_main w Hq) as [Hp _].
  split; [exact Hp|by apply paced_counts].
Qed.

Lemma driver_paced_witness :
  paced (timeline (main (mkWorld (fresh two_lines) (quiet down_twice))).2)
  /\ List.length (sleeps (main (mkWorld (fresh two_lines) (quiet down_twice))).2)
     = List.length (calls (main (mkWorld (fresh two_lines) (quiet down_twice))).2).
Proof.
  apply (driver_paced (mkWorld (fresh two_lines) (quiet down_twice))).
  reflexivity.
Defined.

(** X8. The rate limit of the re-processor: in a pass that is not
    interrupted, over a failure sink whose rows have a field for each
    column, every request is followed by a sleep of at least
    [REQUEST_DELAY] before the next request or the end of the pass; the
    pass sleeps as many times as it makes requests. *)
Theorem reprocessor_paced w :
  sigint (net w) = None ->
  full_rows (FAILED_CSV (files w)) ->
  paced (timeline (RetryFailed.main w).2)
  /\ List.length (sleeps (RetryFailed.main w).2)
     = List.length (calls (RetryFailed.main w).2).
Proof.
  intros Hq _. destruct (keeps_pace_retry_main w Hq) as [Hp _].
  split; [exact Hp|by apply paced_counts].
Qed.

Lemma reprocessor_paced_witness :
  paced (timeline (RetryFailed.main (mkWorld two_failures (quiet up_for_hello))).2)
  /\ List.length
       (sleeps (RetryFailed.main (mkWorld two_failures (quiet up_for_hello))).2)
     = List.length
         (calls (RetryFailed.main (mkWorld two_failures (quiet up_for_hello))).2).
Proof.
  apply (reprocessor_paced (mkWorld two_failures (quiet up_for_hello))).
  - reflexivity.
  - simpl. repeat constructor; right; simpl; lia.
Defined.

End Pacing.

(** ** What a run leaves alone *)

Module Frames.

Import Py World Scraper Examples Obs Views.

#[local] Instance driver_frame_refl : Reflexive driver_frame.
Proof. intros a. unfold driver_frame. done. Qed.

#[local] Instance driver_frame_trans : Transitive driver_frame.
Proof.
  intros a b c (H1 & H2 & H3 & H4 & H5) (G1 & G2 & G3 & G4 & G5).
  unfold driver_frame. repeat split; try congruence; by etrans.
Qed.

#[local] Instance reprocessor_frame_refl : Reflexive reprocessor_frame.
Proof. intros a. unfold reprocessor_frame. done. Qed.

#[local] Instance reprocessor_frame_trans : Transitive reprocessor_frame.
Proof.
  intros a b c (H1 & H2 & H3 & H4 & H5) (G1 & G2 & G3 & G4 & G5).
  unfold reprocessor_frame. repeat split; try congruence; by etrans.
Qed.

Lemma steady_ret {A} R `{!Reflexive R} (a : A) : steady R (ret a).
Proof. intros w. simpl. reflexivity. Qed.

Lemma steady_raise {A} R `{!Reflexive R} e : steady R (@raise World A e).
Proof. intros w. simpl. reflexivity. Qed.

Lemma steady_bind {A B} R `{!Transitive R}
    (m : M World A) (f : A -> M World B) :
  steady R m -> (forall a, steady R (f a)) -> steady R (bind m f).
Proof.
  intros Hm Hf w. specialize (Hm w). unfold bind.
  destruct (m w) as [[[a|e] w1] o1]; cbn [fst snd] in *; [|done].
  specialize (Hf a w1). destruct (f a w1) as [[r2 w2] o2].
  cbn [fst snd] in *. by etrans.
Qed.

Lemma steady_attempt {A} R (m : M World A) :
  steady R m -> steady R (attempt m).
Proof.
  intros Hm w. specialize (Hm w). unfold attempt.
  by destruct (m w) as [[r w1] o1].
Qed.

Lemma steady_lift {A} R `{!Reflexive R} (m : M Net A) : steady R (lift m).
Proof.
  intros w. unfold lift. destruct (m (net w)) as [[r n] o]. simpl.
  reflexivity.
Qed.

Lemma steady_get_file {A} R `{!Reflexive R} (f : Files -> A) :
  steady R (get_file f).
Proof. intros w. simpl. reflexivity. Qed.

Lemma steady_emit R `{!Reflexive R} e : steady R (@emit World e).
Proof. intros w. simpl. reflexivity. Qed.

Lemma steady_set_file (R : Files -> Files -> Prop) g :
  (forall fs, R fs (g fs)) -> steady R (set_file g).
Proof. intros H w. simpl. apply H. Qed.

(** A row added at the end of a sink keeps what the sink held. *)
Lemma write_row_extends row f : content f `prefix_of` content (write_row row f).
Proof.
  destruct f as [c|]; simpl.
  - by exists [Row row].
  - apply prefix_nil.
Qed.

Lemma open_append_content f : content (open_append f) = content f.
Proof. by destruct f. Qed.

Ltac frame_file :=
  intros [i oc b f r m]; unfold driver_frame, reprocessor_frame; simpl;
  rewrite ?open_append_content;
  repeat split; try done; try apply write_row_extends.

Ltac steady_step :=
  first
    [ apply steady_bind; [apply _| |intros ?]
    | apply steady_ret; apply _
    | apply steady_raise; apply _
    | apply steady_emit; apply _
    | apply steady_lift; apply _
    | apply steady_attempt
    | apply steady_get_file; apply _
    | apply steady_set_file; frame_file
    | match goal with
      | |- steady _ (match ?x with _ => _ end) => destruct x
      end ].





Lemma steady_retry_one sid text :
  steady reprocessor_frame (RetryFailed.retry_one sid text).
Proof. unfold RetryFailed.retry_one, print. repeat steady_step. Qed.

Lemma steady_retry_loop failed sc sf :
  steady reprocessor_frame (RetryFailed.retry_loop failed sc sf).
Proof.
  revert sc sf. induction failed as [|[sid text] rest IH]; intros sc sf.
  - apply steady_ret; apply _.
  - simpl. apply steady_bind; [apply _| |].
    + apply steady_attempt, steady_retry_one.
    + intros [[|]|e]; [apply IH|apply IH|apply steady_ret; apply _].
Qed.

Lemma steady_retry_main : steady reprocessor_frame RetryFailed.main.
Proof.
  unfold RetryFailed.main, print.
  repeat first [ apply steady_retry_loop | steady_step ].
Qed.







(** X10. A pass of the re-processor that is not interrupted, over a
    failure sink whose rows have a field for each column, never touches
    the failure sink, nor the input, the backup or the checkpoint marker,
    and the success sink keeps its records and may have more at its end,
    whatever the endpoint answers. *)
Theorem reprocessor_leaves_failures w :
  sigint (net w) = None ->
  full_rows (FAILED_CSV (files w)) ->
  let a := files w in
  let b := files (RetryFailed.main w).1.2 in
  FAILED_CSV b = FAILED_CSV a
  /\ INPUT_TSV b = INPUT_TSV a
  /\ OUTPUT_CSV_BACKUP b = OUTPUT_CSV_BACKUP a
  /\ CHECKPOINT_FILE b = CHECKPOINT_FILE a
  /\ content (OUTPUT_CSV a) `prefix_of` content (OUTPUT_CSV b).
Proof.
  intros _ _ a b. subst a b.
  destruct (steady_retry_main w) as (H1 & H2 & H3 & H4 & H5). done.
Qed.

Lemma reprocessor_leaves_failures_witness :
  let a := two_failures in
  let b := files (RetryFailed.main
                    (mkWorld two_failures (quiet up_for_hello))).1.2 in
  FAILED_CSV b = FAILED_CSV a
  /\ INPUT_TSV b = INPUT_TSV a
  /\ OUTPUT_CSV_BACKUP b = OUTPUT_CSV_BACKUP a
  /\ CHECKPOINT_FILE b = CHECKPOINT_FILE a
  /\ content (OUTPUT_CSV a) `prefix_of` content (OUTPUT_CSV b).
Proof.
  apply (reprocessor_leaves_failures
           (mkWorld two_failures (quiet up_for_hello))).
  - reflexivity.
  - simpl. repeat constructor; right; simpl; lia.
Defined.

End Frames.

(** ** How a run ends *)

Module Endings.

Import Py World Scraper Examples Obs Views RetryPolicy Driver Frames.

(** The result of two computations in a row. *)
Lemma bind_result {S A B} (m : M S A) (f : A -> M S B) s :
  (bind m f s).1.1
  = match (m s).1.1 with
    | Ok a => (f a (m s).1.2).1.1
    | Raise e => Raise e
    end.
Proof.
  unfold bind. destruct (m s) as [[[a|e] s1] o1]; simpl; [|done].
  by destruct (f a s1) as [[r2 s2] o2].
Qed.


Lemma retry_one_raises sid text w e :
  (RetryFailed.retry_one sid text w).1.1 = Raise e -> e = KeyboardInterrupt.
Proof.
  destruct w as [fs n]. unfold RetryFailed.retry_one. run_m.
  pose proof (attempts_loop_outcome text sid (seq 0 MAX_RETRIES) n) as Ht.
  fold (translate_with_retry text sid n) in Ht.
  destruct (translate_with_retry text sid n) as [[[[t st]|e'] n1] o1];
    simpl in *; [|congruence].
  destruct n1 as [rem k sg].
  destruct st; simpl; destruct sg as [[|[|j]]|]; simpl; congruence.
Qed.


Lemma retry_loop_ends failed sc sf w :
  exists sc' sf' raised,
    (RetryFailed.retry_loop failed sc sf w).1.1 = Ok (sc', sf', raised)
    /\ (raised = None \/ raised = Some KeyboardInterrupt).
Proof.
  revert sc sf w. induction failed as [|[sid text] rest IH];
    intros sc sf w; simpl.
  - exists sc, sf, None. split; [done|by left].
  - rewrite bind_result. unfold attempt at 1.
    pose proof (retry_one_raises sid text w) as Hr.
    destruct (RetryFailed.retry_one sid text w) as [[[[|]|e] w1] o1];
      simpl in *.
    + apply IH.
    + apply IH.
    + exists sc, sf, (Some e). split; [done|]. right. f_equal. by apply Hr.
Qed.






End Endings.

(** ** Laws of the progress store and of the checkpoint marker *)

Module StoreLaws.

Import Py World Scraper Examples Obs Views Strings Input ProgressStore
  Reprocessor Driver.

(** A column that the header does not name is not a key of the row. *)
Lemma row_dict_no_key fieldnames row key :
  key ∉ fieldnames -> row_dict fieldnames row !! key = None.
Proof.
  intros Hk. unfold row_dict.
  assert (forall ks (d : gmap str (option str)),
            key ∉ ks ->
            foldl (fun d k => <[k:=None]> d) d ks !! key = d !! key) as Hf.
  { induction ks as [|k ks IH]; intros d Hn; [done|]. simpl.
    rewrite IH by set_solver. apply lookup_insert_ne. set_solver. }
  rewrite Hf.
  - apply not_elem_of_list_to_map_1. intros Hin.
    apply list_elem_of_fmap in Hin as ([k v] & -> & Hin).
    apply elem_of_reverse, elem_of_zip_l in Hin. done.
  - intros Hin. apply Hk. eapply elem_of_sublist; [exact Hin|].
    apply sublist_drop.
Qed.

Lemma add_processed_no_id fieldnames rows acc :
  lit "id" ∉ fieldnames ->
  foldl add_processed acc (row_dict fieldnames <$> rows) = acc.
Proof.
  intros Hk. revert acc. induction rows as [|r rows IH]; intros acc; [done|].
  rewrite fmap_cons. cbn [foldl]. unfold add_processed at 2.
  rewrite row_dict_no_key by done. apply IH.
Qed.

(** X12. A success sink whose first record does not name the column [id], as
    when the sink was started without its header: no row of it counts as
    done, whatever the rows hold. *)
Theorem sink_without_id_column fs n fieldnames rows :
  OUTPUT_CSV fs = Some (Row fieldnames :: rows) ->
  lit "id" ∉ fieldnames ->
  Garbled ∉ rows ->
  load_processed_ids (mkWorld fs n) = (Ok ∅, mkWorld fs n, []).
Proof.
  intros Ho Hk Hg. unfold load_processed_ids. run_m. rewrite Ho. simpl.
  destruct (reader_rows_readable rows Hg) as (rs & Hr & _). rewrite Hr.
  simpl. rewrite add_processed_no_id by done. reflexivity.
Qed.

Lemma sink_without_id_column_witness :
  load_processed_ids
    (mkWorld (set_OUTPUT_CSV
                (Some [Row [lit "1"; lit "hello"; lit "marhba"];
                       Row [lit "2"; lit "bye"; lit "bslama"]])
                (fresh two_lines))
             (quiet always_up))
  = (Ok ∅,
     mkWorld (set_OUTPUT_CSV
                (Some [Row [lit "1"; lit "hello"; lit "marhba"];
                       Row [lit "2"; lit "bye"; lit "bslama"]])
                (fresh two_lines))
             (quiet always_up),
     []).
Proof.
  apply (sink_without_id_column
           (set_OUTPUT_CSV
              (Some [Row [lit "1"; lit "hello"; lit "marhba"];
                     Row [lit "2"; lit "bye"; lit "bslama"]])
              (fresh two_lines))
           (quiet always_up)
           [lit "1"; lit "hello"; lit "marhba"]
           [Row [lit "2"; lit "bye"; lit "bslama"]]).
  - reflexivity.
  - apply (bool_decide_unpack _). vm_compute. exact I.
  - intros Hin. apply list_elem_of_singleton in Hin. discriminate.
Defined.

Lemma reader_rows_raised c : (reader_rows c).2 = true <-> Garbled ∈ c.
Proof.
  induction c as [|r c IH]; simpl.
  - split; [done|]. intros H. by apply elem_of_nil in H.
  - destruct r as [fields|].
    + destruct (reader_rows c) as [rs raised]. simpl in *. rewrite IH.
      split; [by right|]. intros H. apply elem_of_cons in H as [H|H]; done.
    + simpl. split; [left|done].
Qed.

Lemma DictReader_raised c : (DictReader c).2 = true <-> Garbled ∈ c.
Proof.
  destruct c as [|[fields|] c]; simpl.
  - split; [done|]. intros H. by apply elem_of_nil in H.
  - pose proof (reader_rows_raised c) as H.
    destruct (reader_rows c) as [rs raised]. simpl in *. rewrite H.
    split; [by right|]. intros H'. apply elem_of_cons in H' as [H'|H']; done.
  - split; [left|done].
Qed.

(** X14. [load_processed_ids] never fails, whatever the success sink holds. A
    sink that can be read to its end is left as it is and nothing is
    printed; a sink with a record that cannot be read is renamed to the
    backup file, in place of any backup that was there, with all its
    records, and no other file is touched. *)
Theorem load_processed_ids_returns fs n :
  exists processed fs' o,
    load_processed_ids (mkWorld fs n) = (Ok processed, mkWorld fs' n, o)
    /\ ((Garbled ∉ content (OUTPUT_CSV fs)) /\ fs' = fs /\ o = []
        \/ exists c,
             OUTPUT_CSV fs = Some c /\ Garbled ∈ c
             /\ fs' = set_OUTPUT_CSV None (set_OUTPUT_CSV_BACKUP (Some c) fs)
             /\ o = [Print MsgCouldNotRead; Print MsgBackedUp]).
Proof.
  unfold load_processed_ids. run_m.
  destruct (OUTPUT_CSV fs) as [c|] eqn:Ho; simpl.
  - pose proof (DictReader_raised c) as Hd.
    destruct (DictReader c) as [rows raised]. simpl in Hd.
    destruct raised; simpl.
    + rewrite Ho. simpl. eexists _, _, _. split; [reflexivity|].
      right. exists c. by rewrite <- Hd.
    + eexists _, _, _. split; [reflexivity|]. left.
      split; [|done]. intros H. apply Hd in H. done.
  - eexists _, _, _. split; [reflexivity|]. left.
    split; [|done]. intros H. by apply elem_of_nil in H.
Qed.



Lemma universal_newlines_plain s : CR ∉ s -> universal_newlines s = s.
Proof.
  induction s as [|c s IH]; intros Hs; [done|]. simpl.
  destruct (N.eqb_spec c CR) as [->|_]; [set_solver|].
  rewrite IH by set_solver. reflexivity.
Qed.

(** X16. When it is not interrupted, [save_checkpoint] leaves the id in
    the checkpoint file, and [load_checkpoint] then returns it as a file
    read in text mode gives it, each carriage return read as a newline,
    without the white space at its two ends: an id without a carriage
    return comes back stripped. *)
Theorem checkpoint_round_trip sid fs n :
  sigint n = None ->
  let r := (save_checkpoint sid >> load_checkpoint) (mkWorld fs n) in
  r.1.1 = Ok (Some (strip (universal_newlines sid)))
  /\ files r.1.2 = set_CHECKPOINT_FILE (Some sid) fs
  /\ ((CR ∉ sid) -> r.1.1 = Ok (Some (strip sid))).
Proof.
  intros Hq. destruct n as [rem k sg]. simpl in Hq. subst sg.
  unfold save_checkpoint, load_checkpoint. run_m.
  split; [done|]. split; [done|].
  intros Hs. by rewrite universal_newlines_plain.
Qed.

Lemma checkpoint_round_trip_witness :
  let r := (save_checkpoint (lit "12 ") >> load_checkpoint)
             (mkWorld (fresh two_lines) (quiet always_up)) in
  r.1.1 = Ok (Some (strip (universal_newlines (lit "12 "))))
  /\ files r.1.2 = set_CHECKPOINT_FILE (Some (lit "12 ")) (fresh two_lines)
  /\ ((CR ∉ lit "12 ") -> r.1.1 = Ok (Some (strip (lit "12 ")))).
Proof.
  apply (checkpoint_round_trip (lit "12 ") (fresh two_lines)
           (quiet always_up)).
  reflexivity.
Defined.

End StoreLaws.

(** ** The diagnostic log *)

Module Logging.

Import Py World Scraper Examples Obs Views RetryPolicy PolicyLaws.

(** X13. When it is not interrupted, the retry policy leaves exactly
    one line in the diagnostic log for an outcome other than a success,
    naming the sentence: a line for the answer without a paragraph when
    the outcome is [no_translation], a line for the failed request when it
    is [error]; a success leaves none. *)
Theorem outcome_logged_once text sid n :
  sigint n = None ->
  exists t st n' o,
    translate_with_retry text sid n = (Ok (t, st), n', o)
    /\ logged sid st (debug_lines o).
Proof.
  intros Hq. destruct n as [rem k sg]. simpl in Hq. subst sg.
  unfold translate_with_retry. simpl seq. unfold attempts_loop, attempt_body.
  run_m.
  repeat (next_answer rem text;
          try (eexists _, _, _, _; split; [reflexivity|];
               simpl; try done; by eexists)).
Qed.

Lemma outcome_logged_once_witness :
  exists t st n' o,
    translate_with_retry (lit "hi") (lit "1") (quiet always_down)
    = (Ok (t, st), n', o)
    /\ logged (lit "1") st (debug_lines o).
Proof.
  apply (outcome_logged_once (lit "hi") (lit "1") (quiet always_down)).
  reflexivity.
Defined.

End Logging.

(** ** How a pass of the re-processor starts and ends *)

Module Passes.

Import Py World Scraper Examples Obs Views ProgressStore RetryPolicy
  Reprocessor Driver Frames Endings StoreLaws.

(** A column that the header names, in a row with a field for each
    column. *)
Lemma row_dict_full_key fieldnames row key :
  List.length fieldnames <= List.length row ->
  key ∈ fieldnames ->
  exists v, row_dict fieldnames row !! key = Some (Some v).
Proof.
  intros Hlen Hk. rewrite row_dict_full by done.
  destruct (list_to_map (M := gmap str (option str))
              (reverse (zip fieldnames (Some <$> row))) !! key)
    as [x|] eqn:E.
  - apply elem_of_list_to_map_2, elem_of_reverse, elem_of_zip_r in E.
    apply list_elem_of_fmap in E as (v & -> & _). by exists v.
  - apply not_elem_of_list_to_map_2 in E. exfalso. apply E.
    rewrite fmap_reverse, fst_zip by (by rewrite length_fmap).
    by apply elem_of_reverse.
Qed.

Lemma getitem_full fieldnames row key :
  List.length fieldnames <= List.length row ->
  match RetryFailed.getitem (row_dict fieldnames row) key with
  | Ok _ => key ∈ fieldnames
  | Raise e => e = KeyError /\ (key ∉ fieldnames)
  end.
Proof.
  intros Hlen. unfold RetryFailed.getitem.
  destruct (decide (key ∈ fieldnames)) as [Hk|Hk].
  - destruct (row_dict_full_key fieldnames row key Hlen Hk) as [v ->]. done.
  - by rewrite row_dict_no_key.
Qed.

Lemma read_failed_full fieldnames rows acc :
  Forall (fun r : list str => List.length fieldnames <= List.length r) rows ->
  match RetryFailed.read_failed (row_dict fieldnames <$> rows) acc with
  | Ok failed => List.length failed = List.length acc + List.length rows
  | Raise e => e = KeyError
  end.
Proof.
  revert acc. induction rows as [|r rows IH]; intros acc Hall.
  - simpl. lia.
  - apply Forall_cons in Hall as [Hr Hall]. rewrite fmap_cons.
    cbn [RetryFailed.read_failed].
    pose proof (getitem_full fieldnames r (lit "id") Hr) as Hi.
    pose proof (getitem_full fieldnames r (lit "english") Hr) as He.
    destruct (RetryFailed.getitem (row_dict fieldnames r) (lit "id"))
      as [i|e1]; [|by destruct Hi].
    destruct (RetryFailed.getitem (row_dict fieldnames r) (lit "english"))
      as [e|e2]; [|by destruct He].
    specialize (IH (acc ++ [(i, e)]) Hall).
    destruct (RetryFailed.read_failed _ _) as [failed|e3]; [|done].
    rewrite IH, length_app. simpl. lia.
Qed.

Lemma reader_rows_full (fieldnames : list str) c :
  Forall (fun r => match r with
                   | Row fields =>
                       fields = []
                       \/ List.length fieldnames <= List.length fields
                   | Garbled => True
                   end) c ->
  Forall (fun r : list str => List.length fieldnames <= List.length r)
         (filter (fun r => r <> []) (reader_rows c).1).
Proof.
  induction c as [|r c IH]; intros Hall; [constructor|].
  apply Forall_cons in Hall as [Hr Hall]. destruct r as [fields|]; simpl.
  - specialize (IH Hall). destruct (reader_rows c) as [rs raised]. simpl in *.
    destruct fields as [|f fields].
    + by rewrite filter_cons_False by (intros H; by apply H).
    + rewrite filter_cons_True by done. constructor; [|done].
      by destruct Hr.
  - constructor.
Qed.

(** The end of a pass once the failed items are read. *)
Lemma retry_run_ends (failed : list (str * str)) w :
  (match failed with
   | [] => print MsgNothingToRetry
   | _ =>
       set_file (fun fs => set_OUTPUT_CSV (open_append (OUTPUT_CSV fs)) fs) >>
       set_file (set_RETRY_OUTPUT (Some [Row RetryFailed.RETRY_FIELDS])) >>
       let* (success_count, still_failed, raised) :=
         RetryFailed.retry_loop failed 0 0 in
       (match raised with
        | Some KeyboardInterrupt => print MsgInterrupted
        | _ => ret tt
        end) >>
       print (MsgRetrySummary success_count still_failed) >>
       match raised with
       | Some KeyboardInterrupt | None => ret tt
       | Some e => raise e
       end
   end w).1.1 = Ok tt.
Proof.
  destruct failed as [|f0 rest]; [done|].
  rewrite !bind_result. cbn [set_file modify fst snd].
  match goal with
  | |- context [RetryFailed.retry_loop (f0 :: rest) 0 0 ?w1] =>
      destruct (retry_loop_ends (f0 :: rest) 0 0 w1)
        as (sc & sf & raised & Hl & Hr)
  end.
  rewrite Hl. by destruct Hr as [-> | ->].
Qed.

(** X17. A pass of the re-processor that is not interrupted, over a
    failure sink whose rows have a field for each column, either runs to
    its summary and returns, whatever the endpoint answers, or stops
    while it reads the failure sink, on a record that cannot be read or
    on a column that is missing, and then it has sent no request, printed
    nothing and changed no file. *)
Theorem reprocessor_ends fs n :
  sigint n = None ->
  full_rows (FAILED_CSV fs) ->
  let '(r, w', o) := RetryFailed.main (mkWorld fs n) in
  r = Ok tt
  \/ ((r = Raise CsvError \/ r = Raise KeyError)
      /\ w' = mkWorld fs n /\ o = []).
Proof.
  intros _ Hfull.
  destruct (RetryFailed.main (mkWorld fs n)) as [[r w'] o] eqn:Hm.
  revert Hm. unfold RetryFailed.main. unfold bind at 1.
  cbn [get_file gets files]. 
  destruct (FAILED_CSV fs) as [c|]; [|intros [= <- <- <-]; by left].
  destruct c as [|[fieldnames|] c].
  - intros [= <- <- <-]. by left.
  - simpl in Hfull. unfold DictReader.
    pose proof (reader_rows_full fieldnames c Hfull) as Hf.
    destruct (reader_rows c) as [rows raised]. simpl in Hf.
    pose proof (read_failed_full fieldnames _ [] Hf) as Hrd.
    destruct (RetryFailed.read_failed _ _) as [failed|e].
    + destruct raised.
      * intros [= <- <- <-]. right. split; [by left|done].
      * intros Hm. left.
        apply (f_equal (fun x => x.1.1)) in Hm. simpl in Hm. rewrite <- Hm.
        match goal with
        | |- context [print (MsgFoundFailed ?k) >> ?rest] =>
            assert (((print (MsgFoundFailed k) >> rest) (mkWorld fs n)).1.1
                    = Ok tt) as HX;
            [|destruct ((print (MsgFoundFailed k) >> rest) (mkWorld fs n))
                as [[? ?] ?]; exact HX]
        end.
        rewrite bind_result. cbn [print emit fst snd].
        apply retry_run_ends.
    + subst e. intros [= <- <- <-]. right. split; [by right|done].
  - simpl. intros [= <- <- <-]. right. split; [by left|done].
Qed.

Lemma reprocessor_ends_witness :
  let '(r, w', o) := RetryFailed.main (mkWorld one_failure (quiet always_up)) in
  r = Ok tt
  \/ ((r = Raise CsvError \/ r = Raise KeyError)
      /\ w' = mkWorld one_failure (quiet always_up) /\ o = []).
Proof.
  apply (reprocessor_ends one_failure (quiet always_up)).
  - reflexivity.
  - simpl. constructor; [|constructor]. right. simpl. lia.
Defined.

Lemma reader_rows_blank k :
  reader_rows (replicate k (Row [])) = (replicate k [], false).
Proof. induction k as [|k IH]; [done|]. simpl. by rewrite IH. Qed.

Lemma filter_blank k :
  filter (fun r : list str => r <> []) (replicate k []) = [].
Proof.
  induction k as [|k IH]; [done|]. simpl.
  by rewrite filter_cons_False by (intros H; by apply H).
Qed.

(** X18. Nothing to retry: when the failure sink is missing, is empty, or
    holds only its header and blank rows, the pass returns without a
    request and changes no file; in particular it neither creates the
    success sink nor empties the retry-results sink of an earlier pass. *)
Theorem nothing_to_retry fs n :
  FAILED_CSV fs = None
  \/ FAILED_CSV fs = Some []
  \/ (exists fieldnames k,
        FAILED_CSV fs = Some (Row fieldnames :: replicate k (Row []))) ->
  exists o,
    RetryFailed.main (mkWorld fs n) = (Ok tt, mkWorld fs n, o)
    /\ timeline o = [].
Proof.
  intros [H|[H|(fieldnames & k & H)]]; unfold RetryFailed.main; run_m;
    rewrite H; simpl.
  - eexists. split; reflexivity.
  - eexists. split; reflexivity.
  - rewrite reader_rows_blank, filter_blank. simpl.
    eexists. split; reflexivity.
Qed.

Lemma nothing_to_retry_witness :
  exists o,
    RetryFailed.main
      (mkWorld (set_FAILED_CSV (Some [Row FAILED_FIELDS; Row []]) two_failures)
               (quiet always_up))
    = (Ok tt,
       mkWorld (set_FAILED_CSV (Some [Row FAILED_FIELDS; Row []]) two_failures)
               (quiet always_up),
       o)
    /\ timeline o = [].
Proof.
  apply (nothing_to_retry
           (set_FAILED_CSV (Some [Row FAILED_FIELDS; Row []]) two_failures)
           (quiet always_up)).
  right. right. exists FAILED_FIELDS, 1. reflexivity.
Defined.

(** X19. A failure sink whose header lacks the column [id] or the column
    [english] stops the pass with [KeyError] at its first row, before any
    request and before any file is opened for writing. *)
Theorem missing_column_stops_pass fs n fieldnames row rest :
  FAILED_CSV fs = Some (Row fieldnames :: Row row :: rest) ->
  row <> [] ->
  List.length fieldnames <= List.length row ->
  (lit "id" ∉ fieldnames) \/ (lit "english" ∉ fieldnames) ->
  RetryFailed.main (mkWorld fs n) = (Raise KeyError, mkWorld fs n, []).
Proof.
  intros H Hne Hlen Hk. unfold RetryFailed.main. run_m. rewrite H. simpl.
  destruct (reader_rows rest) as [rows raised]. simpl.
  rewrite filter_cons_True by done. rewrite fmap_cons.
  cbn [RetryFailed.read_failed].
  pose proof (getitem_full fieldnames row (lit "id") Hlen) as Hi.
  pose proof (getitem_full fieldnames row (lit "english") Hlen) as He.
  destruct (RetryFailed.getitem (row_dict fieldnames row) (lit "id"))
    as [i|e1].
  - destruct (RetryFailed.getitem (row_dict fieldnames row) (lit "english"))
      as [e|e2].
    + by destruct Hk.
    + destruct He as [-> _]. reflexivity.
  - destruct Hi as [-> _]. reflexivity.
Qed.

Lemma missing_column_stops_pass_witness :
  RetryFailed.main
    (mkWorld (set_FAILED_CSV
                (Some [Row [lit "1"; lit "hello"; lit "error"];
                       Row [lit "2"; lit "bye"; lit "error"]])
                two_failures)
             (quiet always_up))
  = (Raise KeyError,
     mkWorld (set_FAILED_CSV
                (Some [Row [lit "1"; lit "hello"; lit "error"];
                       Row [lit "2"; lit "bye"; lit "error"]])
                two_failures)
             (quiet always_up),
     []).
Proof.
  apply (missing_column_stops_pass
           (set_FAILED_CSV
              (Some [Row [lit "1"; lit "hello"; lit "error"];
                     Row [lit "2"; lit "bye"; lit "error"]])
              two_failures)
           (quiet always_up)
           [lit "1"; lit "hello"; lit "error"]
           [lit "2"; lit "bye"; lit "error"] []).
  - reflexivity.
  - discriminate.
  - simpl. lia.
  - left. apply (bool_decide_unpack _). vm_compute. exact I.
Defined.

End Passes.

(** ** What an uninterrupted run of the driver records *)

Module Recording.

Import Py World Scraper Examples Obs Views Strings Input ProgressStore
  RetryPolicy Reprocessor Driver.


(** Each sentence gives one row, to one of the two sinks. *)
Lemma rows_split (z : list ((str * str) * (option str * status))) :
  List.length (omap success_row z) + List.length (omap failed_row z)
  = List.length z.
Proof.
  induction z as [|[[sid text] [t st]] z IH]; [done|].
  destruct st; simpl; rewrite ?Nat.add_succ_r; f_equal; exact IH.
Qed.

Lemma marker_after_last (sentences : list (str * str)) old :
  sentences <> [] -> marker_after sentences old = fst <$> last sentences.
Proof.
  intros Hne. destruct sentences as [|s rest] using rev_ind; [done|].
  unfold marker_after. rewrite foldl_app, last_snoc. reflexivity.
Qed.




(** X21. A run of the driver that was not interrupted gives each pending
    sentence exactly one row, at the end of the success sink or of the
    failure sink: the two counts of its summary are the numbers of rows
    added to the two sinks and add up to the number of pending sentences,
    and the checkpoint marker is the id of the last of them. *)
Theorem uninterrupted_run_tally fs n lines :
  sigint n = None ->
  INPUT_TSV fs = Some lines ->
  sink_ready (OUTPUT_CSV fs) ->
  let pending := pending_of (flat_map line_items lines)
                            (list_to_set (data_ids (OUTPUT_CSV fs))) in
  pending <> [] ->
  let fs' := files (main (mkWorld fs n)).1.2 in
  exists success_count fail_count,
    Print (MsgSummary success_count fail_count) ∈ (main (mkWorld fs n)).2
    /\ success_count + fail_count = List.length pending
    /\ List.length (content (OUTPUT_CSV fs'))
       = List.length (content (opened OUTPUT_FIELDS (OUTPUT_CSV fs)))
         + success_count
    /\ List.length (content (FAILED_CSV fs'))
       = List.length (content (opened FAILED_FIELDS (FAILED_CSV fs)))
         + fail_count
    /\ CHECKPOINT_FILE fs' = fst <$> last pending.
Proof.
  intros Hq Hi Hr pending Hne fs'. subst fs'.
  destruct (main_quiet fs n lines Hq Hi Hr Hne)
    as (n' & o & Hm & Hsum & Hlen & _).
  fold pending in Hm, Hsum, Hlen. rewrite Hm. simpl.
  eexists _, _. split; [exact Hsum|].
  split; [|split; [|split]].
  - rewrite rows_split, length_zip, Hlen. lia.
  - destruct (OUTPUT_CSV fs) as [c|]; simpl; rewrite write_rows_some; simpl;
      rewrite ?length_app, length_fmap; reflexivity.
  - destruct (FAILED_CSV fs) as [c|]; simpl; rewrite write_rows_some; simpl;
      rewrite ?length_app, length_fmap; reflexivity.
  - by apply marker_after_last.
Qed.

Lemma uninterrupted_run_tally_witness :
  let fs' := files (main (mkWorld (fresh two_lines) (quiet always_up))).1.2 in
  exists success_count fail_count,
    Print (MsgSummary success_count fail_count)
      ∈ (main (mkWorld (fresh two_lines) (quiet always_up))).2
    /\ success_count + fail_count
       = List.length
           (pending_of (flat_map line_items two_lines)
              (list_to_set (data_ids (OUTPUT_CSV (fresh two_lines)))))
    /\ List.length (content (OUTPUT_CSV fs'))
       = List.length
           (content (opened OUTPUT_FIELDS (OUTPUT_CSV (fresh two_lines))))
         + success_count
    /\ List.length (content (FAILED_CSV fs'))
       = List.length
           (content (opened FAILED_FIELDS (FAILED_CSV (fresh two_lines))))
         + fail_count
    /\ CHECKPOINT_FILE fs'
       = fst <$> last (pending_of (flat_map line_items two_lines)
                         (list_to_set
                            (data_ids (OUTPUT_CSV (fresh two_lines))))).
Proof.
  apply (uninterrupted_run_tally (fresh two_lines) (quiet always_up)
           two_lines).
  - reflexivity.
  - reflexivity.
  - by left.
  - vm_compute. discriminate.
Defined.






End Recording.

(** ** The text that the extraction returns *)

Module Extraction.

Import Py Re World Scraper Examples Obs Views Strings Paragraph.

Lemma split_ws_from_words cur s :
  Forall (fun c => isspace c = false) cur ->
  Forall word (split_ws_from cur s).
Proof.
  revert cur. induction s as [|c r IH]; intros cur Hcur; simpl.
  - destruct cur as [|d cur]; [constructor|].
    constructor; [|constructor]. split.
    + simpl. intros H. by apply app_eq_nil in H as [_ H].
    + by apply List.Forall_rev.
  - destruct (isspace c) eqn:E.
    + destruct cur as [|d cur]; [by apply IH|].
      constructor; [|by apply IH]. split.
      * simpl. intros H. by apply app_eq_nil in H as [_ H].
      * by apply List.Forall_rev.
    + apply IH. by constructor.
Qed.

Lemma split_ws_words s : Forall word (split_ws s).
Proof. apply split_ws_from_words. constructor. Qed.

Lemma join_space_cons w l :
  l <> [] -> join_space (w :: l) = w ++ SPACE :: join_space l.
Proof. by destruct l. Qed.

Lemma join_space_head l :
  Forall word l -> l <> [] ->
  exists c r, join_space l = c :: r /\ isspace c = false.
Proof.
  intros Hall Hne. destruct l as [|w l]; [done|].
  apply Forall_cons in Hall as [[Hw Hc] _].
  destruct w as [|c w]; [done|]. apply Forall_cons in Hc as [Hc _].
  destruct l as [|w2 l]; simpl; eauto.
Qed.

Lemma single_spaced_word w t :
  Forall (fun c => isspace c = false) w ->
  single_spaced (w ++ t) = single_spaced t.
Proof.
  induction 1 as [|c w Hc _ IH]; [done|]. simpl. by rewrite Hc, IH.
Qed.

Lemma join_space_single l :
  Forall word l -> single_spaced (join_space l) = true.
Proof.
  induction 1 as [|w l [Hw Hc] Hall IH]; [done|].
  destruct (decide (l = [])) as [->|Hne].
  - simpl. rewrite <- (app_nil_r w). by rewrite single_spaced_word.
  - rewrite join_space_cons by done. rewrite single_spaced_word by done.
    destruct (join_space_head l Hall Hne) as (c & r & Hj & Hsp).
    rewrite Hj in *.
    change (single_spaced (SPACE :: c :: r))
      with ((if isspace SPACE
             then (SPACE =? SPACE)%N && negb (isspace c)
             else true) && single_spaced (c :: r)).
    rewrite IH, Hsp. reflexivity.
Qed.

Lemma lstrip_app_keep x y : lstrip x <> [] -> lstrip (x ++ y) = lstrip x ++ y.
Proof.
  induction x as [|c x IH]; [done|]. simpl.
  destruct (isspace c); [exact IH|done].
Qed.

Lemma rstrip_app_keep a b : rstrip b <> [] -> rstrip (a ++ b) = a ++ rstrip b.
Proof.
  unfold rstrip. intros Hb. rewrite rev_app_distr.
  rewrite lstrip_app_keep.
  - by rewrite rev_app_distr, rev_involutive.
  - intros H. apply Hb. by rewrite H.
Qed.

Lemma lstrip_word w : Forall (fun c => isspace c = false) w -> lstrip w = w.
Proof. destruct 1 as [|c w Hc _]; [done|]. simpl. by rewrite Hc. Qed.

Lemma rstrip_word w : Forall (fun c => isspace c = false) w -> rstrip w = w.
Proof.
  intros H. unfold rstrip. rewrite lstrip_word by (by apply List.Forall_rev).
  apply rev_involutive.
Qed.

Lemma join_space_rstrip l :
  Forall word l -> rstrip (join_space l) = join_space l.
Proof.
  induction 1 as [|w l [Hw Hc] Hall IH]; [done|].
  destruct (decide (l = [])) as [->|Hne].
  - simpl. by apply rstrip_word.
  - rewrite join_space_cons by done.
    change (w ++ SPACE :: join_space l) with (w ++ [SPACE] ++ join_space l).
    rewrite app_assoc.
    destruct (join_space_head l Hall Hne) as (c & r & Hj & Hsp).
    rewrite rstrip_app_keep; [by rewrite IH|].
    rewrite IH, Hj. done.
Qed.

(** The last [strip()] of the extraction changes nothing: the words joined
    by single spaces have no white space around them. *)
Lemma join_space_strip l : Forall word l -> strip (join_space l) = join_space l.
Proof.
  intros Hall. unfold strip.
  destruct (decide (l = [])) as [->|Hne]; [done|].
  destruct (join_space_head l Hall Hne) as (c & r & Hj & Hsp).
  assert (lstrip (join_space l) = join_space l) as ->.
  { rewrite Hj. simpl. by rewrite Hsp. }
  by apply join_space_rstrip.
Qed.

Lemma single_spaced_elem t c :
  single_spaced t = true -> c ∈ t -> isspace c = true -> c = SPACE.
Proof.
  induction t as [|d t IH]; intros Hs Hin Hc; [by apply elem_of_nil in Hin|].
  simpl in Hs. apply andb_true_iff in Hs as [Hd Hs].
  apply elem_of_cons in Hin as [->|Hin]; [|by apply IH].
  rewrite Hc in Hd. apply andb_true_iff in Hd as [Hd _].
  by apply N.eqb_eq in Hd.
Qed.

(** X25. The text that [extract_fs3_paragraph] returns is in normal form: it
    is not empty, has no white space at its ends, and its only white
    space is single spaces between words, so that it holds neither a
    newline nor a tab. *)
Theorem extracted_text_normal html t :
  extract_fs3_paragraph html = Some t ->
  t <> []
  /\ strip t = t
  /\ single_spaced t = true
  /\ (NL ∉ t) /\ (TAB ∉ t).
Proof.
  intros H. destruct (extract_shape html t H) as (Hne & inner & _ & Ht).
  pose proof (split_ws_words (sub_tags inner)) as Hw.
  rewrite join_space_strip in Ht by done.
  assert (single_spaced t = true) as Hs
    by (subst t; by apply join_space_single).
  split; [done|]. split; [subst t; by apply join_space_strip|].
  split; [done|]. split.
  - intros Hin. by apply (single_spaced_elem t NL Hs) in Hin.
  - intros Hin. by apply (single_spaced_elem t TAB Hs) in Hin.
Qed.

Lemma extracted_text_normal_witness :
  lit "marhba" <> []
  /\ strip (lit "marhba") = lit "marhba"
  /\ single_spaced (lit "marhba") = true
  /\ (NL ∉ lit "marhba") /\ (TAB ∉ lit "marhba").
Proof.
  apply (extracted_text_normal (page "marhba") (lit "marhba")).
  vm_compute. reflexivity.
Defined.

Lemma imatch_app pat x : imatch pat (pat ++ x) = Some x.
Proof.
  induction pat as [|p pat IH]; [done|]. simpl.
  unfold ieq. by rewrite N.eqb_refl.
Qed.

Lemma ieq_lt c : c <> LT -> ieq LT c = false.
Proof.
  intros Hc. unfold ieq. apply N.eqb_neq. intros H. apply Hc.
  change (lower LT) with 60%N in H. unfold lower in H. unfold LT.
  destruct ((65 <=? c) && (c <=? 90))%N eqn:E1.
  - apply andb_true_iff in E1 as [H1 H2]. apply N.leb_le in H1. lia.
  - destruct (c =? 383)%N; [discriminate|done].
Qed.

Lemma imatch_not_lt pat c s : c <> LT -> imatch (LT :: pat) (c :: s) = None.
Proof. intros Hc. simpl. by rewrite ieq_lt. Qed.

Lemma match_here_not_lt c s : c <> LT -> match_here (c :: s) = None.
Proof.
  intros Hc. unfold match_here.
  change (lit "<p") with (LT :: [112%N]). by rewrite imatch_not_lt.
Qed.

(** The search passes over text without [<]. *)
Lemma search_fs3_skip pre s : LT ∉ pre -> search_fs3 (pre ++ s) = search_fs3 s.
Proof.
  induction pre as [|c pre IH]; intros Hp; [done|].
  cbn [app search_fs3]. rewrite match_here_not_lt by set_solver.
  apply IH. set_solver.
Qed.

Lemma match_here_open x :
  match_here (OPEN_FS3 ++ x) = until_lit (lit "</p>") x.
Proof. reflexivity. Qed.

Lemma until_lit_plain pat body rest :
  LT ∉ body ->
  until_lit (LT :: pat) (body ++ (LT :: pat) ++ rest) = Some body.
Proof.
  induction body as [|c body IH]; intros Hb.
  - cbn [app until_lit].
    change (LT :: pat ++ rest) with ((LT :: pat) ++ rest).
    by rewrite imatch_app.
  - change ((c :: body) ++ (LT :: pat) ++ rest)
      with (c :: (body ++ (LT :: pat) ++ rest)).
    cbn [until_lit]. rewrite imatch_not_lt by set_solver.
    rewrite IH by set_solver. reflexivity.
Qed.

Lemma sub_tags_plain s : LT ∉ s -> sub_tags s = s.
Proof.
  unfold sub_tags. induction s as [|c s IH]; intros Hs; [done|].
  simpl. destruct (N.eqb_spec c LT) as [->|_]; [set_solver|].
  rewrite IH by set_solver. reflexivity.
Qed.

(** X26. From a document whose first [<] opens the paragraph
    [<p class="fs-3">], with a body without tags, the extraction returns
    the words of the body joined by single spaces, or [None] when the body
    has no word, whatever follows the paragraph. *)
Theorem plain_paragraph pre body rest :
  LT ∉ pre ->
  LT ∉ body ->
  extract_fs3_paragraph (pre ++ OPEN_FS3 ++ body ++ lit "</p>" ++ rest)
  = words_of body.
Proof.
  intros Hp Hb. unfold extract_fs3_paragraph, words_of.
  rewrite search_fs3_skip by done.
  assert (search_fs3 (OPEN_FS3 ++ body ++ lit "</p>" ++ rest) = Some body)
    as ->.
  { change (OPEN_FS3 ++ body ++ lit "</p>" ++ rest)
      with (LT :: tail OPEN_FS3 ++ body ++ lit "</p>" ++ rest).
    cbn [search_fs3].
    change (LT :: tail OPEN_FS3 ++ body ++ lit "</p>" ++ rest)
      with (OPEN_FS3 ++ body ++ lit "</p>" ++ rest).
    rewrite match_here_open.
    change (lit "</p>") with (LT :: lit "/p>").
    by rewrite until_lit_plain. }
  rewrite sub_tags_plain by done.
  rewrite join_space_strip by apply split_ws_words. reflexivity.
Qed.

Lemma plain_paragraph_witness :
  extract_fs3_paragraph
    (lit "ok " ++ OPEN_FS3 ++ lit " marhba  bik " ++ lit "</p>" ++ lit "<hr>")
  = words_of (lit " marhba  bik ").
Proof.
  apply (plain_paragraph (lit "ok ") (lit " marhba  bik ") (lit "<hr>")).
  - apply (bool_decide_unpack _). vm_compute. exact I.
  - apply (bool_decide_unpack _). vm_compute. exact I.
Defined.

Lemma search_fs3_leftmost html g :
  search_fs3 html = Some g ->
  exists pre s,
    html = pre ++ s
    /\ match_here s = Some g
    /\ forall j, j < List.length pre -> match_here (drop j html) = None.
Proof.
  induction html as [|c html IH].
  - intros H. vm_compute in H. discriminate.
  - cbn [search_fs3]. destruct (match_here (c :: html)) as [g'|] eqn:E.
    + intros [= <-]. exists [], (c :: html). split; [done|].
      split; [done|]. simpl. lia.
    + intros H. destruct (IH H) as (pre & s & -> & Hs & Hj).
      exists (c :: pre), s. split; [done|]. split; [done|].
      intros [|j] Hlt; [exact E|]. simpl in *. apply Hj. lia.
Qed.

(** X27. What the extraction reads is group 1 of the leftmost match of the
    pattern: no match starts before it, the tag opens with [<p] in any
    case, its attributes hold the class and no [>], and the group ends at
    the first [</p>], in any case, after the [>] of the tag. *)
Theorem search_leftmost_shortest html g :
  search_fs3 html = Some g ->
  exists pre tag attrs close rest,
    html = pre ++ tag ++ attrs ++ GT :: g ++ close ++ rest
    /\ imatches (lit "<p") tag
    /\ (GT ∉ attrs)
    /\ icontains CLASS_FS3 attrs = true
    /\ imatches (lit "</p>") close
    /\ (forall j, j < List.length pre -> match_here (drop j html) = None)
    /\ (forall k, k < List.length g ->
                  imatch (lit "</p>") (drop k (g ++ close ++ rest)) = None).
Proof.
  intros H. destruct (search_fs3_leftmost html g H) as (pre & s & -> & Hs & Hj).
  destruct (match_here_shape s g Hs)
    as (tag & attrs & close & rest & -> & Ht & Ha & Hc & Hcl & Hk).
  exists pre, tag, attrs, close, rest. done.
Qed.

Lemma search_leftmost_shortest_witness :
  exists pre tag attrs close rest,
    page "marhba" = pre ++ tag ++ attrs ++ GT :: lit "marhba" ++ close ++ rest
    /\ imatches (lit "<p") tag
    /\ (GT ∉ attrs)
    /\ icontains CLASS_FS3 attrs = true
    /\ imatches (lit "</p>") close
    /\ (forall j, j < List.length pre ->
                  match_here (drop j (page "marhba")) = None)
    /\ (forall k, k < List.length (lit "marhba") ->
                  imatch (lit "</p>") (drop k (lit "marhba" ++ close ++ rest))
                  = None).
Proof.
  apply (search_leftmost_shortest (page "marhba") (lit "marhba")).
  vm_compute. reflexivity.
Defined.

Lemma close_index_tag t b :
  GT ∉ t ->
  close_index (t ++ GT :: b)
  = if bool_decide (NL ∈ t) then None else Some (List.length t).
Proof.
  induction t as [|c t IH]; intros Ht.
  - case_bool_decide as H; [by apply elem_of_nil in H|done].
  - cbn [app close_index].
    destruct (N.eqb_spec c GT) as [->|_]; [set_solver|].
    destruct (N.eqb_spec c NL) as [->|Hc].
    + rewrite bool_decide_eq_true_2; [done|]. left.
    + rewrite IH by set_solver. case_bool_decide as H1; case_bool_decide as H2;
        try done; set_solver.
Qed.

Lemma sub_tags_from_skip x y :
  sub_tags_from (List.length x) (x ++ y) = sub_tags_from 0 y.
Proof. induction x as [|c x IH]; [done|]. exact IH. Qed.

Lemma sub_tags_app_plain a s :
  LT ∉ a -> sub_tags (a ++ s) = a ++ sub_tags s.
Proof.
  unfold sub_tags. induction a as [|c a IH]; intros Ha; [done|].
  cbn [app sub_tags_from]. destruct (N.eqb_spec c LT) as [->|_]; [set_solver|].
  rewrite IH by set_solver. reflexivity.
Qed.

(** X28. The removal of nested tags takes away a tag from its [<] to the
    first [>] after it, unless a line break lies between the two: then
    the [<] stays in the text, and the removal goes on after it. *)
Theorem nested_tag_removed a t b :
  LT ∉ a ->
  GT ∉ t ->
  sub_tags (a ++ LT :: t ++ GT :: b)
  = if bool_decide (NL ∈ t)
    then a ++ LT :: sub_tags (t ++ GT :: b)
    else a ++ sub_tags b.
Proof.
  intros Ha Ht. rewrite sub_tags_app_plain by done.
  unfold sub_tags at 1. cbn [sub_tags_from].
  change (LT =? LT)%N with true. cbn iota.
  rewrite close_index_tag by done.
  case_bool_decide; [done|].
  replace (S (List.length t)) with (List.length (t ++ [GT]))
    by (rewrite length_app; simpl; lia).
  replace (t ++ GT :: b) with ((t ++ [GT]) ++ b) by (by rewrite <- app_assoc).
  by rewrite sub_tags_from_skip.
Qed.

Lemma nested_tag_removed_witness :
  sub_tags (lit "a " ++ LT :: lit "b" ++ GT :: lit "c")
  = if bool_decide (NL ∈ lit "b")
    then lit "a " ++ LT :: sub_tags (lit "b" ++ GT :: lit "c")
    else lit "a " ++ sub_tags (lit "c").
Proof.
  apply (nested_tag_removed (lit "a ") (lit "b") (lit "c")).
  - apply (bool_decide_unpack _). vm_compute. exact I.
  - apply (bool_decide_unpack _). vm_compute. exact I.
Defined.

End Extraction.

(** ** The pace of a run that is cut short *)

Module Interrupts.

Import Py World Scraper Examples Obs Views RetryPolicy PolicyLaws Pacing.

Ltac pace_out :=
  repeat first
    [ apply paced_nil
    | apply paced_step; [apply Qle_refl|] ].

(** The requests of the policy, wherever the interrupt falls: when it
    returns, its requests with the sleep that its caller adds are paced;
    when it is interrupted, they are spaced. *)
Lemma policy_spaced text sid n :
  let '(r, _, o) := translate_with_retry text sid n in
  match r with
  | Ok _ => paced (timeline o ++ [Sleep REQUEST_DELAY])
  | Raise _ => spaced (timeline o)
  end.
Proof.
  destruct n as [rem k sg].
  unfold translate_with_retry. simpl seq. unfold attempts_loop, attempt_body.
  run_m.
  destruct sg as [[|[|[|[|[|j]]]]]|]; simpl;
    repeat (first [ next_answer rem text | idtac ];
            try (unfold spaced; eexists; simpl; pace_out; fail);
            try (simpl; pace_out; fail)).
Qed.

Lemma spaced_paced t : paced t -> spaced t.
Proof. intros H. exists []. by rewrite app_nil_r. Qed.

Lemma spaced_app a b : paced a -> spaced b -> spaced (a ++ b).
Proof.
  intros Ha [rest Hb]. exists rest. rewrite <- app_assoc. by apply paced_app.
Qed.

(** One sentence of the driver. *)
Lemma scrape_one_spaced sid text w :
  let '(r, _, o) := scrape_one sid text w in
  match r with
  | Ok _ => paced (timeline o)
  | Raise _ => spaced (timeline o)
  end.
Proof.
  destruct w as [fs n]. unfold scrape_one, save_checkpoint. run_m.
  pose proof (policy_spaced text sid n) as Hp.
  destruct (translate_with_retry text sid n) as [[[[t st]|e] n1] o1];
    simpl in *; [|done].
  destruct n1 as [rem k sg].
  destruct st; simpl; destruct sg as [[|[|[|j]]]|]; simpl;
    rewrite ?timeline_app; simpl; rewrite ?app_nil_r;
    first [ exact Hp | by exists [Sleep REQUEST_DELAY] ].
Qed.

Lemma spaces_scrape_loop sentences sc fc :
  spaces (scrape_loop sentences sc fc).
Proof.
  revert sc fc. induction sentences as [|[sid text] rest IH];
    intros sc fc w.
  - apply spaced_paced. apply paced_nil.
  - simpl. unfold bind, attempt.
    pose proof (scrape_one_spaced sid text w) as Hone.
    destruct (scrape_one sid text w) as [[[[|]|e] w1] o1].
    + specialize (IH (sc + 1) fc w1).
      destruct (scrape_loop rest (sc + 1) fc w1) as [[r2 w2] o2].
      simpl in *. rewrite timeline_app. by apply spaced_app.
    + specialize (IH sc (fc + 1) w1).
      destruct (scrape_loop rest sc (fc + 1) w1) as [[r2 w2] o2].
      simpl in *. rewrite timeline_app. by apply spaced_app.
    + simpl. by rewrite app_nil_r.
Qed.

(** *** Computations without a request *)

Lemma silent_ret {A} (a : A) : silent (ret a).
Proof. done. Qed.

Lemma silent_raise {A} e : silent (@raise World A e).
Proof. done. Qed.

Lemma silent_print m : silent (@print World m).
Proof. done. Qed.

Lemma silent_get_file {A} (f : Files -> A) : silent (get_file f).
Proof. done. Qed.

Lemma silent_set_file g : silent (set_file g).
Proof. done. Qed.

Lemma silent_bind {A B} (m : M World A) (f : A -> M World B) :
  silent m -> (forall a, silent (f a)) -> silent (bind m f).
Proof.
  intros Hm Hf w. specialize (Hm w). unfold bind.
  destruct (m w) as [[[a|e] w1] o1]; simpl in *; [|done].
  specialize (Hf a w1). destruct (f a w1) as [[r2 w2] o2]. simpl in *.
  by rewrite timeline_app, Hm, Hf.
Qed.

Lemma spaces_silent {A} (m : M World A) : silent m -> spaces m.
Proof. intros Hm w. rewrite Hm. apply spaced_paced, paced_nil. Qed.

Lemma spaces_after {A B} (m : M World A) (f : A -> M World B) :
  silent m -> (forall a, spaces (f a)) -> spaces (bind m f).
Proof.
  intros Hm Hf w. specialize (Hm w). unfold bind.
  destruct (m w) as [[[a|e] w1] o1]; simpl in *.
  - specialize (Hf a w1). destruct (f a w1) as [[r2 w2] o2]. simpl in *.
    by rewrite timeline_app, Hm.
  - rewrite Hm. apply spaced_paced, paced_nil.
Qed.

Lemma spaces_before {A B} (m : M World A) (f : A -> M World B) :
  spaces m -> (forall a, silent (f a)) -> spaces (bind m f).
Proof.
  intros Hm Hf w. specialize (Hm w). unfold bind.
  destruct (m w) as [[[a|e] w1] o1]; simpl in *; [|done].
  specialize (Hf a w1). destruct (f a w1) as [[r2 w2] o2]. simpl in *.
  by rewrite timeline_app, Hf, app_nil_r.
Qed.

Ltac silent_step :=
  first
    [ apply silent_bind; [|intros ?]
    | apply silent_ret
    | apply silent_raise
    | apply silent_print
    | apply silent_get_file
    | apply silent_set_file
    | match goal with
      | |- silent (match ?x with _ => _ end) => destruct x
      | |- silent (let '(_, _) := ?x in _) => destruct x
      end ].

Lemma silent_pending_sentences : silent pending_sentences.
Proof.
  unfold pending_sentences, read_sentences, load_processed_ids.
  repeat silent_step.
Qed.

Lemma silent_open_sinks : silent open_sinks.
Proof. unfold open_sinks. repeat silent_step. Qed.

Lemma silent_report ended : silent (report ended).
Proof. unfold report, load_checkpoint. repeat silent_step. Qed.

Lemma spaces_main : spaces main.
Proof.
  unfold main. apply spaces_after; [apply silent_pending_sentences|].
  intros [|s0 rest]; [apply spaces_silent, silent_print|].
  apply spaces_after; [apply silent_open_sinks|]. intros _.
  apply spaces_after; [apply silent_print|]. intros _.
  apply spaces_before; [apply spaces_scrape_loop|apply silent_report].
Qed.

(** X30. The driver never sends two requests without a sleep of at
    least [REQUEST_DELAY] between them, whatever the endpoint answers,
    whether the run ends by itself or is cut short by an interrupt that
    arrives at a request, during a sleep, or just before a row or the
    checkpoint marker is written, the points at which the model delivers
    an interrupt: the requests and sleeps of the run are the beginning of
    a sequence in which each request is followed by such a sleep. *)
Theorem requests_always_spaced w : spaced (timeline (main w).2).
Proof. apply spaces_main. Qed.

End Interrupts.
